(** * Game of Life (main.c): the grid engine and the start-up option parsing

    A shallow embedding of the simulation core of [main.c]:
    [board_compute_thread], [board_compute], [board_compute_openmp],
    [board_reset] and the argument handling of [main].

    - An [int] cell is a [Z]; the [Uint32] accumulator [count] is a [Z] kept
      below [2^32], with the wrap-around of [count += ...] written out.
    - An [int **] board is a list of rows, each a list of cells; [board] and
      [temp] are two separate allocations ([initialize_game]), so the pair of
      boards is passed and returned explicitly.
    - Loop counters stay below 40, so their [Uint32] arithmetic is exact. *)

From Stdlib Require Import ZArith Lia.
From stdpp Require Import base list list_numbers strings.

Local Open Scope Z_scope.

(** ** Constants *)

Definition kBoardWidth : Z := 40.
Definition kMaxWidth : Z := 39.
Definition kBoardHeight : Z := 30.
Definition kMaxHeight : Z := 29.

Definition EXIT_SUCCESS : Z := 0.
Definition EXIT_FAILURE : Z := 1.
Definition Yes : Z := 1.
Definition No : Z := 0.

(** ** Boards *)

Abbreviation grid := (list (list Z)).

(** [board[i][j]] as an rvalue.  The code only evaluates it behind the guards
    that keep [i] and [j] inside the allocation; outside it the C program has
    no defined behaviour and the model reads 0. *)
Definition rd (b : grid) (i j : Z) : Z :=
  default 0 (b !! Z.to_nat i ≫= λ row, row !! Z.to_nat j).

(** [board[i][j] = v]. *)
Definition wr (b : grid) (i j v : Z) : grid :=
  alter (λ row, <[Z.to_nat j := v]> row) (Z.to_nat i) b.

(** The shape [initialize_game] allocates: [kBoardHeight] rows of
    [kBoardWidth] cells. *)
Definition wf_grid (b : grid) : Prop :=
  length b = Z.to_nat kBoardHeight ∧
  Forall (λ row, length row = Z.to_nat kBoardWidth) b.

Definition in_grid (i j : Z) : Prop :=
  0 ≤ i < kBoardHeight ∧ 0 ≤ j < kBoardWidth.

Definition binary_grid (b : grid) : Prop :=
  ∀ i j, in_grid i j → rd b i j = 0 ∨ rd b i j = 1.

(** ** Control structure *)

(** [for (i = 0; i < n; i++) body]: the iterations run in ascending order. *)
Definition for_loop {S : Type} (n : Z) (body : Z → S → S) (s : S) : S :=
  foldl (λ s i, body i s) s (seqZ 0 n).

(** [#pragma omp parallel for] over [for (i = 0; i < n; i++) body]: every
    iteration runs exactly once, in an order chosen by the runtime.  The
    order is the parameter [sched]; it is a schedule for [n] iterations when
    it is a permutation of [0 .. n-1]. *)
Definition omp_parallel_for {S : Type} (sched : list Z) (body : Z → S → S) (s : S) : S :=
  foldl (λ s i, body i s) s sched.

Definition schedule (n : Z) (sched : list Z) : Prop :=
  sched ≡ₚ seqZ 0 n.

(** ** The engine *)

(** [count += v] on a [Uint32] accumulator: the [int] operand is converted to
    unsigned and the sum wraps modulo [2^32]. *)
Definition Uint32_add (count v : Z) : Z := (count + v) mod 2 ^ 32.

(** The neighbour-counting part of the body of [board_compute_thread]. *)
Definition count_around (board : grid) (height width : Z) : Z :=
  let count := 0 in
  let count :=
    if negb (height =? 0) then
      (* Top left *)
      let count :=
        if negb (width =? 0)
        then Uint32_add count (rd board (height - 1) (width - 1)) else count in
      (* Top center *)
      let count := Uint32_add count (rd board (height - 1) width) in
      (* Top right *)
      if width <? kMaxWidth
      then Uint32_add count (rd board (height - 1) (width + 1)) else count
    else count in
  (* center left *)
  let count :=
    if negb (width =? 0)
    then Uint32_add count (rd board height (width - 1)) else count in
  (* center right *)
  let count :=
    if width <? kMaxWidth
    then Uint32_add count (rd board height (width + 1)) else count in
  if height <? kMaxHeight then
    (* bottom left *)
    let count :=
      if negb (width =? 0)
      then Uint32_add count (rd board (height + 1) (width - 1)) else count in
    (* bottom center *)
    let count := Uint32_add count (rd board (height + 1) width) in
    (* bottom right *)
    if width <? kMaxWidth
    then Uint32_add count (rd board (height + 1) (width + 1)) else count
  else count.

(** One iteration of the [width] loop of [board_compute_thread]. *)
Definition cell_update (board temp : grid) (height width : Z) : grid :=
  let count := count_around board height width in
  if (rd board height width =? 0) && (count =? 3) then
    wr temp height width 1
  else if (rd board height width =? 1) && ((count =? 2) || (count =? 3)) then
    wr temp height width 1
  else
    wr temp height width 0.

(** [board_compute_thread(board, temp, height)]: [board] is only read, the
    row [height] of [temp] is written; the new [temp] is returned. *)
Definition board_compute_thread (board temp : grid) (height : Z) : grid :=
  for_loop kBoardWidth (λ width temp, cell_update board temp height width) temp.

(** [board_compute(board, temp)]: returns the new [(board, temp)]. *)
Definition board_compute (board temp : grid) : grid * grid :=
  let temp :=
    for_loop kBoardHeight (λ i temp, board_compute_thread board temp i) temp in
  (* Copy the temp board to the new *)
  let board :=
    for_loop kBoardHeight (λ i board,
      for_loop kBoardWidth (λ j board, wr board i j (rd temp i j)) board) board in
  (board, temp).

(** [board_compute_openmp(board, temp)]: the row loop is a parallel loop, and
    so is the column loop of every row of the copy; [rows] is the order in
    which the row iterations take effect and [cols i] the order of the column
    iterations while row [i] is copied.  The trailing [omp barrier] stands
    outside every parallel region and does nothing. *)
Definition board_compute_openmp (rows : list Z) (cols : Z → list Z)
    (board temp : grid) : grid * grid :=
  let temp :=
    omp_parallel_for rows (λ i temp, board_compute_thread board temp i) temp in
  let board :=
    for_loop kBoardHeight (λ i board,
      omp_parallel_for (cols i) (λ j board, wr board i j (rd temp i j)) board) board in
  (board, temp).

(** The first parallel loop of [board_compute_openmp] at a finer grain: the
    threads interleave after any cell update, so that the cell updates of
    all rows take effect in some order [tasks].  [rows_any_interleaving]
    below shows that this grain gives nothing new. *)
Definition interleaved_rows (tasks : list (Z * Z)) (board temp : grid) : grid :=
  foldl (λ temp q, cell_update board temp q.1 q.2) temp tasks.

(** The part of [struct GameContainer] that is not an SDL handle. *)
Inductive ComputeBoardFunc := Board_compute | Board_compute_openmp.
Inductive DrawBoardFunc := Draw_board | Draw_board_openmp | Draw_board_multithread.

Record GameContainer := mkGame {
  drawBoardFunc : DrawBoardFunc;
  computeBoardFunc : ComputeBoardFunc;
  board : grid;
  temp : grid;
  quit : Z;
  playing : Z;
  useOpenGL : Z
}.

Definition set_board (game : GameContainer) (b : grid) : GameContainer :=
  mkGame (drawBoardFunc game) (computeBoardFunc game) b (temp game)
         (quit game) (playing game) (useOpenGL game).
Definition set_temp (game : GameContainer) (t : grid) : GameContainer :=
  mkGame (drawBoardFunc game) (computeBoardFunc game) (board game) t
         (quit game) (playing game) (useOpenGL game).

(** [board_reset(game)]. *)
Definition board_reset (game : GameContainer) : GameContainer :=
  for_loop kBoardHeight (λ i game,
    for_loop kBoardWidth (λ j game,
      let game := set_board game (wr (board game) i j 0) in
      set_temp game (wr (temp game) i j 0)) game) game.

Definition set_funcs (game : GameContainer)
    (c : ComputeBoardFunc) (d : DrawBoardFunc) : GameContainer :=
  mkGame d c (board game) (temp game) (quit game) (playing game) (useOpenGL game).
Definition set_useOpenGL (game : GameContainer) (v : Z) : GameContainer :=
  mkGame (drawBoardFunc game) (computeBoardFunc game) (board game) (temp game)
         (quit game) (playing game) v.

(** How the argument handling at the top of [main] ends: by [return status],
    or by falling through to the SDL set-up and the main loop with the
    container as filled so far. *)
Inductive Startup :=
  | Return (status : Z)
  | Start (game : GameContainer).

(** The argument handling of [main(argc, argv)], with [argc = length argv].
    [game] is the local [GameContainer] as it is found on the stack, which
    [main] does not initialise; the messages printed are left out. *)
Definition main (argv : list string) (game : GameContainer) : Startup :=
  let argc := Z.of_nat (length argv) in
  if argc =? 1 then
    Start (set_funcs game Board_compute Draw_board)
  else if argc =? 2 then
    let arg := argv !!! 1%nat in
    if String.eqb arg "--openmp" then
      Start (set_funcs game Board_compute_openmp Draw_board_openmp)
    else if String.eqb arg "--thread" then
      Start (set_funcs game Board_compute Draw_board_multithread)
    else if String.eqb arg "--opengl" then
      Start (set_funcs (set_useOpenGL game Yes) Board_compute Draw_board)
    else
      Return EXIT_FAILURE
  else
    Return EXIT_FAILURE.

(** [game.computeBoardFunc(game.board, game.temp)] as [do_main_loop] calls
    it, under a given OpenMP schedule. *)
Definition compute_board (rows : list Z) (cols : Z → list Z)
    (game : GameContainer) : GameContainer :=
  let '(b, t) :=
    match computeBoardFunc game with
    | Board_compute => board_compute (board game) (temp game)
    | Board_compute_openmp =>
        board_compute_openmp rows cols (board game) (temp game)
    end in
  set_temp (set_board game b) t.

(** ** The rule as the specification words it *)

(** TransitionRule: a dead cell with exactly 3 live neighbours becomes alive,
    an alive cell with 2 or 3 live neighbours stays alive, every other
    combination gives a dead cell. *)
Definition nextState (selfAlive : bool) (liveNeighborCount : Z) : bool :=
  if selfAlive
  then (liveNeighborCount =? 2) || (liveNeighborCount =? 3)
  else (liveNeighborCount =? 3).

(** The 8 coordinates surrounding [(i, j)], row above first. *)
Definition surrounding (i j : Z) : list (Z * Z) :=
  [ (i - 1, j - 1); (i - 1, j); (i - 1, j + 1);
    (i, j - 1); (i, j + 1);
    (i + 1, j - 1); (i + 1, j); (i + 1, j + 1) ].

Definition inside (p : Z * Z) : Prop := in_grid p.1 p.2.

#[global] Instance inside_dec p : Decision (inside p).
Proof. unfold inside, in_grid. apply _. Defined.

(** The neighbours of [(i, j)]: the surrounding coordinates that fall inside
    [0, height) x [0, width). *)
Definition neighbours (i j : Z) : list (Z * Z) :=
  filter inside (surrounding i j).

Definition cell_at (b : grid) (p : Z * Z) : Z := rd b p.1 p.2.

Definition sum_cells (b : grid) (l : list (Z * Z)) : Z :=
  foldr Z.add 0 (cell_at b <$> l).

(** The number of neighbours of [(i, j)] that are alive. *)
Definition live_neighbours (b : grid) (i j : Z) : Z :=
  Z.of_nat (length (filter (λ p, cell_at b p = 1) (neighbours i j))).

(** ** Patterns *)

(** A pattern says which cells of the unbounded plane are alive; a board
    shows a pattern when its cells are the pattern's, and a pattern is
    confined when it has no live cell outside the board. *)
Definition pattern := Z → Z → bool.

Definition shows (b : grid) (p : pattern) : Prop :=
  ∀ i j, in_grid i j → rd b i j = Z.b2z (p i j).

Definition confined (p : pattern) : Prop :=
  ∀ i j, ¬ in_grid i j → p i j = false.

(** A pattern agrees with the board at a coordinate when the cell there is
    the pattern's, or the coordinate is outside and the pattern is dead. *)
Definition agrees (b : grid) (p : pattern) (q : Z * Z) : Prop :=
  (inside q → cell_at b q = Z.b2z (p q.1 q.2)) ∧
  (¬ inside q → p q.1 q.2 = false).

Definition count_pattern (p : pattern) (i j : Z) : Z :=
  foldr Z.add 0 ((λ q, Z.b2z (p q.1 q.2)) <$> surrounding i j).

Definition step_pattern (p : pattern) : pattern :=
  λ i j, nextState (p i j) (count_pattern p i j).

(** The 2x2 block with top-left corner [(r, c)]. *)
Definition block (r c : Z) : pattern :=
  λ i j, (r <=? i) && (i <=? r + 1) && (c <=? j) && (j <=? c + 1).

(** The three-cell lines centred at [(r, c)]. *)
Definition horizontal (r c : Z) : pattern :=
  λ i j, (i =? r) && (c - 1 <=? j) && (j <=? c + 1).

Definition vertical (r c : Z) : pattern :=
  λ i j, (j =? c) && (r - 1 <=? i) && (i <=? r + 1).

(** ** Closed forms used by the proofs *)

(** The value [cell_update] stores at [temp[height][width]]. *)
Definition next_cell (board : grid) (height width : Z) : Z :=
  let count := count_around board height width in
  if (rd board height width =? 0) && (count =? 3) then 1
  else if (rd board height width =? 1) && ((count =? 2) || (count =? 3)) then 1
  else 0.

(** The board of the allocated shape whose cell [(i, j)] is [f i j]. *)
Definition grid_of (f : Z → Z → Z) : grid :=
  (λ i, (λ j, f i j) <$> seqZ 0 kBoardWidth) <$> seqZ 0 kBoardHeight.

(** Writing [f i j] to the cells [(i, j)], [i] taken from [rows] and [j] from
    [cols i], in that order: the shape of every loop nest of the engine. *)
Definition fill_cells (f : Z → Z → Z) (rows : list Z) (cols : Z → list Z)
    (t : grid) : grid :=
  foldl (λ t i, foldl (λ t j, wr t i j (f i j)) t (cols i)) t rows.

(** The board that shows a pattern, and the all-dead board. *)
Definition board_of (p : pattern) : grid := grid_of (λ i j, Z.b2z (p i j)).

Definition blank : grid := grid_of (λ _ _, 0).

(** The container with both boards replaced. *)
Definition with_boards (game : GameContainer) (b t : grid) : GameContainer :=
  set_temp (set_board game b) t.

(** The corner pattern: (0,1), (1,0) and (1,1) alive, (0,0) dead. *)
Definition corner : pattern :=
  λ i j, block 0 0 i j && negb ((i =? 0) && (j =? 0)).

(** Some contents for the uninitialised local [game] of [main]. *)
Definition stack_garbage : GameContainer :=
  mkGame Draw_board_openmp Board_compute_openmp [] [] 7 7 7.

(** ** The controller: buttons, start-up, events and frames *)

Definition kTileSize : Z := 20.
Definition ACTIVE : Z := 1.
Definition INACTIVE : Z := 0.

(** [SDL_Rect]: [x] and [y] are [Sint16], [w] and [h] are [Uint16]. *)
Module Rect.
Record t := mk { x : Z; y : Z; w : Z; h : Z }.
End Rect.

(** Storing an [int] in a [Sint16] field keeps it modulo [2^16]. *)
Definition to_Sint16 (v : Z) : Z := (v + 2 ^ 15) mod 2 ^ 16 - 2 ^ 15.

(** [struct Button].  Of the two surfaces only their [clip_rect] is read by
    the code modelled here, so [surf] holds the [clip_rect] of [surf[0]] and
    of [surf[1]]. *)
Record Button := mkButton {
  surf : list Rect.t;
  position : Rect.t;
  active : Z
}.

(** [btn->surf[k]->clip_rect]. *)
Definition clip_rect (btn : Button) (k : Z) : Rect.t :=
  default (Rect.mk 0 0 0 0) (surf btn !! Z.to_nat k).

(** [button_set_position(btn, x, y)]. *)
Definition button_set_position (btn : Button) (x y : Z) : Button :=
  mkButton (surf btn)
    (Rect.mk (to_Sint16 x) (to_Sint16 y)
             (Rect.w (position btn)) (Rect.h (position btn)))
    (active btn).

(** [button_set_active(btn, act)]. *)
Definition button_set_active (btn : Button) (act : Z) : Button :=
  mkButton (surf btn) (position btn) act.

(** [button_is_clicked(btn, x, y)]: 1 or 0. *)
Definition button_is_clicked (btn : Button) (x y : Z) : Z :=
  Z.b2z
    ((Rect.x (position btn) <? x) &&
     (x <? Rect.x (position btn) + Rect.w (clip_rect btn (active btn))) &&
     (Rect.y (position btn) <? y) &&
     (y <? Rect.y (position btn) + Rect.h (clip_rect btn (active btn)))).

(** The [GameContainer] together with the three buttons its pointers lead
    to. *)
Record Game := mkUi {
  container : GameContainer;
  startBtn : Button;
  stopBtn : Button;
  resetBtn : Button
}.

Definition set_quit (game : GameContainer) (v : Z) : GameContainer :=
  mkGame (drawBoardFunc game) (computeBoardFunc game) (board game) (temp game)
         v (playing game) (useOpenGL game).
Definition set_playing (game : GameContainer) (v : Z) : GameContainer :=
  mkGame (drawBoardFunc game) (computeBoardFunc game) (board game) (temp game)
         (quit game) v (useOpenGL game).

(** [initialize_game(game)].  The three buttons are passed as
    [button_create] returns them and the two boards as [malloc] returns
    them, with whatever they hold; the font, the screen and the white square
    are left out. *)
Definition initialize_game (game : GameContainer)
    (start stop reset : Button) (board0 temp0 : grid) : Game :=
  (* Clean up default vars *)
  let game := set_useOpenGL game No in
  let game := set_playing game No in
  let game := set_quit game No in
  (* Create Start button *)
  let start := button_set_position start 5 5 in
  let start := button_set_active start 1 in
  (* Create Stop button *)
  let stop :=
    button_set_position stop (Rect.w (clip_rect start INACTIVE) + 10) 5 in
  let stop := button_set_active stop 0 in
  (* Create Reset button *)
  let reset :=
    button_set_position reset
      (Rect.w (clip_rect start INACTIVE) + Rect.w (clip_rect stop INACTIVE) + 15)
      5 in
  let reset := button_set_active reset 1 in
  (* Create the two boards. *)
  let game := set_temp (set_board game board0) temp0 in
  (* Clear both board *)
  let game := board_reset game in
  mkUi game start stop reset.

(** [SDL_Event] as far as [do_main_loop] looks at it: the tag [evt.type] and,
    per tag, the values its field accesses yield.  [is_left] says whether
    [evt.button.button] is [SDL_BUTTON_LEFT].  For a motion event the code
    reads [evt.motion.y] and [evt.button.x]; [MouseMotion] carries these two
    values. *)
Inductive SDL_Event :=
  | Quit
  | MouseButtonDown (is_left : bool) (x y : Z)
  | MouseButtonUp (is_left : bool)
  | MouseMotion (button_x motion_y : Z)
  | OtherEvent.

(** The state of [do_main_loop]: its copy of the container, the buttons, and
    the local [mouseButtonDown]. *)
Record Loop := mkLoop {
  ui : Game;
  mouseButtonDown : Z
}.

Definition with_container (st : Loop) (c : GameContainer) : Loop :=
  mkLoop (mkUi c (startBtn (ui st)) (stopBtn (ui st)) (resetBtn (ui st)))
         (mouseButtonDown st).

(** The body of the [SDL_PollEvent] loop of [do_main_loop] for one event. *)
Definition handle_event (evt : SDL_Event) (st : Loop) : Loop :=
  let g := ui st in
  (* game.quit = evt.type == SDL_QUIT *)
  let c := set_quit (container g) (match evt with Quit => 1 | _ => 0 end) in
  if playing c =? 0 then
    match evt with
    | MouseButtonDown is_left x y =>
        if is_left then
          if negb (button_is_clicked (startBtn g) x y =? 0) then
            mkLoop (mkUi (set_playing c Yes)
                         (button_set_active (startBtn g) 0)
                         (button_set_active (stopBtn g) 1)
                         (button_set_active (resetBtn g) 0))
                   (mouseButtonDown st)
          else if negb (button_is_clicked (resetBtn g) x y =? 0) then
            with_container st (board_reset c)
          else
            mkLoop (mkUi (set_board c (wr (board c) (y / kTileSize) (x / kTileSize) 1))
                         (startBtn g) (stopBtn g) (resetBtn g))
                   Yes
        else with_container st c
    | MouseButtonUp is_left =>
        mkLoop (mkUi c (startBtn g) (stopBtn g) (resetBtn g))
               (if is_left then 0 else 1)
    | MouseMotion button_x motion_y =>
        if negb (mouseButtonDown st =? 0) then
          with_container st
            (set_board c (wr (board c) (motion_y / kTileSize) (button_x / kTileSize) 1))
        else with_container st c
    | _ => with_container st c
    end
  else
    match evt with
    | MouseButtonDown _ x y =>
        let now := Z.b2z (button_is_clicked (stopBtn g) x y =? 0) in
        mkLoop (mkUi (set_playing c now)
                     (button_set_active (startBtn g) (Z.b2z (now =? 0)))
                     (button_set_active (stopBtn g) now)
                     (button_set_active (resetBtn g) (Z.b2z (now =? 0))))
               (mouseButtonDown st)
    | _ => with_container st c
    end.

(** One turn of the [while] loop of [do_main_loop]: the events polled in it
    and the OpenMP schedule of its generation-advance. *)
Record Tick := mkTick {
  tick_events : list SDL_Event;
  tick_rows : list Z;
  tick_cols : Z → list Z
}.

(** The body of the [while] loop without the drawing: all pending events,
    then a generation-advance when [game.playing == Yes]. *)
Definition frame (tk : Tick) (st : Loop) : Loop :=
  let st := foldl (λ st evt, handle_event evt st) st (tick_events tk) in
  if playing (container (ui st)) =? Yes then
    with_container st
      (compute_board (tick_rows tk) (tick_cols tk) (container (ui st)))
  else st.

(** [do_main_loop(game)] over the turns that the input provides: the loop
    ends before the first turn that finds [game.quit] set. *)
Fixpoint run_loop (ticks : list Tick) (st : Loop) : Loop :=
  if negb (quit (container (ui st)) =? 0) then st
  else match ticks with
       | [] => st
       | tk :: ticks => run_loop ticks (frame tk st)
       end.

Definition do_main_loop (ticks : list Tick) (g : Game) : Loop :=
  run_loop ticks (mkLoop g 0).

(** [draw_board(game)]: the [(square.x, square.y)] of the white squares it
    blits, in the order of the calls. *)
Definition draw_board (game : GameContainer) : list (Z * Z) :=
  for_loop kBoardHeight (λ i out,
    for_loop kBoardWidth (λ j out,
      if rd (board game) i j =? 0 then out
      else out ++ [(to_Sint16 (j * kTileSize), to_Sint16 (i * kTileSize))]) out) [].

(** What the controller relies on. *)
Definition same_width (btn : Button) : Prop :=
  Rect.w (clip_rect btn ACTIVE) = Rect.w (clip_rect btn INACTIVE).

Definition flags_mirror_playing (g : Game) : Prop :=
  (playing (container g) = 0 ∨ playing (container g) = 1) ∧
  active (startBtn g) = 1 - playing (container g) ∧
  active (resetBtn g) = 1 - playing (container g) ∧
  active (stopBtn g) = playing (container g).

Definition in_window (evt : SDL_Event) : Prop :=
  match evt with
  | MouseButtonDown _ x y | MouseMotion x y =>
      0 ≤ x < kBoardWidth * kTileSize ∧ 0 ≤ y < kBoardHeight * kTileSize
  | _ => True
  end.

Definition same_button (b b' : Button) : Prop :=
  surf b' = surf b ∧ position b' = position b.

Definition same_layout (g g' : Game) : Prop :=
  same_button (startBtn g) (startBtn g') ∧
  same_button (stopBtn g) (stopBtn g') ∧
  same_button (resetBtn g) (resetBtn g').

Definition is_press (evt : SDL_Event) : bool :=
  match evt with MouseButtonDown _ _ _ => true | _ => false end.

Definition boards_ok (c : GameContainer) : Prop :=
  wf_grid (board c) ∧ wf_grid (temp c) ∧
  binary_grid (board c) ∧ binary_grid (temp c).

Definition tick_ok (tk : Tick) : Prop :=
  Forall in_window (tick_events tk) ∧
  schedule kBoardHeight (tick_rows tk) ∧
  ∀ i, 0 ≤ i < kBoardHeight → schedule kBoardWidth (tick_cols tk i).

(** What [draw_board] blits for one cell. *)
Definition cell_square (game : GameContainer) (i j : Z) : list (Z * Z) :=
  if rd (board game) i j =? 0 then []
  else [(to_Sint16 (j * kTileSize), to_Sint16 (i * kTileSize))].

(** ** Boards and patterns used by the further properties *)

(** The board mirrored left to right, and top to bottom. *)
Definition flip_h (b : grid) : grid := grid_of (λ i j, rd b i (kMaxWidth - j)).

Definition flip_v (b : grid) : grid := grid_of (λ i j, rd b (kMaxHeight - i) j).

(** The pattern without a live cell, and the two cells (0, c) and (1, c). *)
Definition dead : pattern := λ _ _, false.

Definition stub (c : Z) : pattern := λ i j, (j =? c) && (0 <=? i) && (i <=? 1).

(** ** Reading and writing cells *)

Section grid_access.
Implicit Types (b : grid) (i j v : Z).

Lemma wf_grid_row b i :
  wf_grid b → 0 ≤ i < kBoardHeight →
  ∃ row, b !! Z.to_nat i = Some row ∧ length row = Z.to_nat kBoardWidth.
Proof.
  intros [Hlen Hrows] Hi.
  destruct (lookup_lt_is_Some_2 b (Z.to_nat i)) as [row Hrow]; [lia|].
  exists row; split; [done|].
  by apply (proj1 (Forall_lookup _ _) Hrows (Z.to_nat i)).
Qed.

Lemma rd_lookup b i j row x :
  b !! Z.to_nat i = Some row → row !! Z.to_nat j = Some x → rd b i j = x.
Proof. intros Hrow Hx. unfold rd. rewrite Hrow. simpl. by rewrite Hx. Qed.

Lemma wf_grid_wr b i j v : wf_grid b → wf_grid (wr b i j v).
Proof.
  intros [Hlen Hrows]; split; unfold wr.
  - by rewrite length_alter.
  - apply Forall_alter; [done|].
    intros row _ Hrow. by rewrite length_insert.
Qed.

Lemma rd_wr_eq b i j v :
  wf_grid b → in_grid i j → rd (wr b i j v) i j = v.
Proof.
  intros Hwf [Hi Hj]. destruct (wf_grid_row b i Hwf Hi) as (row & Hrow & Hlen).
  unfold rd, wr. rewrite list_lookup_alter_eq, Hrow; simpl.
  rewrite list_lookup_insert_eq by lia. done.
Qed.

Lemma rd_wr_ne b i j v i' j' :
  0 ≤ i → 0 ≤ j → 0 ≤ i' → 0 ≤ j' → (i', j') ≠ (i, j) →
  rd (wr b i j v) i' j' = rd b i' j'.
Proof.
  intros Hi Hj Hi' Hj' Hne. unfold rd, wr.
  destruct (decide (i' = i)) as [->|Hrow].
  - rewrite list_lookup_alter_eq. destruct (b !! Z.to_nat i) as [row|]; simpl; [|done].
    rewrite list_lookup_insert_ne; [done|]. intros Heq. apply Hne. f_equal. lia.
  - rewrite list_lookup_alter_ne by lia. done.
Qed.

Lemma rd_wr b i j v i' j' :
  wf_grid b → in_grid i j → 0 ≤ i' → 0 ≤ j' →
  rd (wr b i j v) i' j' = if decide (i' = i ∧ j' = j) then v else rd b i' j'.
Proof.
  intros Hwf Hin Hi' Hj'. case_decide as Heq.
  - destruct Heq as [-> ->]. by apply rd_wr_eq.
  - destruct Hin as [??]. apply rd_wr_ne; [lia..|]. intros [=]. tauto.
Qed.

(** Two boards of the allocated shape with the same cells are equal. *)
Lemma grid_ext b1 b2 :
  wf_grid b1 → wf_grid b2 →
  (∀ i j, in_grid i j → rd b1 i j = rd b2 i j) → b1 = b2.
Proof.
  intros Hwf1 Hwf2 Hcells. apply list_eq. intros n.
  destruct (decide (n < Z.to_nat kBoardHeight)%nat) as [Hn|Hn].
  - destruct (wf_grid_row b1 (Z.of_nat n) Hwf1) as (r1 & Hr1 & Hl1); [lia|].
    destruct (wf_grid_row b2 (Z.of_nat n) Hwf2) as (r2 & Hr2 & Hl2); [lia|].
    rewrite Nat2Z.id in Hr1, Hr2. rewrite Hr1, Hr2. f_equal.
    apply list_eq. intros m.
    destruct (decide (m < Z.to_nat kBoardWidth)%nat) as [Hm|Hm].
    + specialize (Hcells (Z.of_nat n) (Z.of_nat m)).
      unfold rd in Hcells. rewrite !Nat2Z.id, Hr1, Hr2 in Hcells. simpl in Hcells.
      destruct (lookup_lt_is_Some_2 r1 m) as [x1 Hx1]; [lia|].
      destruct (lookup_lt_is_Some_2 r2 m) as [x2 Hx2]; [lia|].
      rewrite Hx1, Hx2 in Hcells |- *. simpl in Hcells. f_equal.
      apply Hcells. unfold in_grid. lia.
    + rewrite !lookup_ge_None_2 by lia. done.
  - destruct Hwf1 as [? _], Hwf2 as [? _]. rewrite !lookup_ge_None_2 by lia. done.
Qed.
End grid_access.

(** ** Loop nests that write cells *)

Section fill.
Implicit Types (t : grid) (f : Z → Z → Z) (rows : list Z) (cols : Z → list Z).

Lemma wf_grid_of f : wf_grid (grid_of f).
Proof.
  split; unfold grid_of.
  - by rewrite length_fmap, length_seqZ.
  - apply Forall_fmap, Forall_forall. intros i _. unfold compose.
    by rewrite length_fmap, length_seqZ.
Qed.

Lemma rd_grid_of f i j : in_grid i j → rd (grid_of f) i j = f i j.
Proof.
  intros [Hi Hj].
  apply (rd_lookup _ _ _ ((λ j, f i j) <$> seqZ 0 kBoardWidth)).
  - unfold grid_of. rewrite list_lookup_fmap, lookup_seqZ_lt by lia.
    simpl. by rewrite Z2Nat.id by lia.
  - rewrite list_lookup_fmap, lookup_seqZ_lt by lia.
    simpl. by rewrite Z2Nat.id by lia.
Qed.

Lemma fill_row f t i l :
  wf_grid t → 0 ≤ i < kBoardHeight → Forall (λ j, 0 ≤ j < kBoardWidth) l →
  wf_grid (foldl (λ t j, wr t i j (f i j)) t l) ∧
  ∀ i' j', in_grid i' j' →
    rd (foldl (λ t j, wr t i j (f i j)) t l) i' j' =
    if decide (i' = i ∧ j' ∈ l) then f i' j' else rd t i' j'.
Proof.
  intros Hwf Hi Hl. revert t Hwf.
  induction Hl as [|j l Hj Hl IH]; intros t Hwf; simpl.
  - split; [done|]. intros i' j' _. case_decide as H; [|done].
    destruct H as [_ H]. by apply elem_of_nil in H.
  - destruct (IH (wr t i j (f i j))) as [Hwf' Hrd]; [by apply wf_grid_wr|].
    split; [done|]. intros i' j' Hin. rewrite Hrd by done.
    destruct (decide (i' = i ∧ j' ∈ l)) as [[-> Hl']|Hnl].
    { rewrite decide_True; [done|]. split; [done|by right]. }
    destruct Hin as [Hi' Hj'].
    rewrite rd_wr by (done || unfold in_grid; lia).
    destruct (decide (i' = i ∧ j' = j)) as [[-> ->]|Hne].
    + rewrite decide_True; [done|]. split; [done|by left].
    + rewrite decide_False; [done|].
      intros [-> [->|?]%elem_of_cons]; tauto.
Qed.

Lemma fill_cells_spec f rows cols t :
  wf_grid t →
  Forall (λ i, 0 ≤ i < kBoardHeight) rows →
  (∀ i, 0 ≤ i < kBoardHeight → Forall (λ j, 0 ≤ j < kBoardWidth) (cols i)) →
  wf_grid (fill_cells f rows cols t) ∧
  ∀ i' j', in_grid i' j' →
    rd (fill_cells f rows cols t) i' j' =
    if decide (i' ∈ rows ∧ j' ∈ cols i') then f i' j' else rd t i' j'.
Proof.
  intros Hwf Hrows Hcols. revert t Hwf. unfold fill_cells.
  induction Hrows as [|i rows Hi Hrows IH]; intros t Hwf.
  - split; [done|]. intros i' j' _. rewrite decide_False; [done|].
    intros [H _]. by apply elem_of_nil in H.
  - simpl. destruct (fill_row f t i (cols i) Hwf Hi (Hcols i Hi)) as [Hwf1 Hrd1].
    destruct (IH _ Hwf1) as [Hwf2 Hrd2].
    split; [done|]. intros i' j' Hin.
    rewrite Hrd2, Hrd1 by done.
    destruct (decide (i' ∈ rows ∧ j' ∈ cols i')) as [[Hr Hc]|Hnr].
    { rewrite decide_True; [done|]. split; [by right|done]. }
    destruct (decide (i' = i ∧ j' ∈ cols i)) as [[-> Hc]|Hne].
    + rewrite decide_True; [done|]. split; [by left|done].
    + rewrite decide_False; [done|].
      intros [[->|?]%elem_of_cons ?]; tauto.
Qed.

Lemma schedule_range n sched :
  schedule n sched → Forall (λ i, 0 ≤ i < n) sched.
Proof.
  intros Hs. apply Forall_forall. intros i Hi.
  rewrite Hs in Hi. apply elem_of_seqZ in Hi. lia.
Qed.

Lemma schedule_elem n sched i :
  schedule n sched → 0 ≤ i < n → i ∈ sched.
Proof. intros Hs Hi. rewrite Hs. apply elem_of_seqZ. lia. Qed.

Lemma schedule_seqZ n : schedule n (seqZ 0 n).
Proof. unfold schedule. reflexivity. Qed.

(** When every row and every column is visited, whatever the order, the
    result is the closed form and the previous contents are gone. *)
Lemma fill_cells_all f rows cols t :
  wf_grid t →
  schedule kBoardHeight rows →
  (∀ i, 0 ≤ i < kBoardHeight → schedule kBoardWidth (cols i)) →
  fill_cells f rows cols t = grid_of f.
Proof.
  intros Hwf Hrows Hcols.
  destruct (fill_cells_spec f rows cols t) as [Hwf' Hrd];
    [done|by apply schedule_range|by intros; apply schedule_range, Hcols|].
  apply grid_ext; [done|apply wf_grid_of|].
  intros i j Hin. rewrite Hrd, rd_grid_of by done.
  destruct Hin as [Hi Hj]. rewrite decide_True; [done|].
  split; [by eapply schedule_elem|by eapply schedule_elem, Hj; apply Hcols].
Qed.
End fill.

(** ** The engine in closed form *)

Section engine.
Implicit Types (board temp : grid) (rows : list Z) (cols : Z → list Z).

Lemma foldl_pointwise {A B} (f g : A → B → A) (l : list B) (a : A) :
  (∀ a x, f a x = g a x) → foldl f a l = foldl g a l.
Proof.
  intros Hfg. revert a. induction l as [|x l IH]; intros a; simpl; [done|].
  by rewrite Hfg, IH.
Qed.

Lemma cell_update_wr board temp height width :
  cell_update board temp height width =
  wr temp height width (next_cell board height width).
Proof.
  unfold cell_update, next_cell.
  by repeat case_match.
Qed.

Lemma grid_of_ext (f g : Z → Z → Z) :
  (∀ i j, in_grid i j → f i j = g i j) → grid_of f = grid_of g.
Proof.
  intros Hfg. apply grid_ext; [apply wf_grid_of..|].
  intros i j Hin. rewrite !rd_grid_of by done. by apply Hfg.
Qed.

(** The rows of the first phase, in any order. *)
Lemma compute_rows board temp rows :
  foldl (λ temp i, board_compute_thread board temp i) temp rows =
  fill_cells (next_cell board) rows (λ _, seqZ 0 kBoardWidth) temp.
Proof.
  unfold fill_cells. apply foldl_pointwise. intros t i.
  unfold board_compute_thread, for_loop. apply foldl_pointwise.
  intros t' j. apply cell_update_wr.
Qed.

(** The copy phase, the columns of each row in any order. *)
Lemma copy_rows board temp cols :
  for_loop kBoardHeight (λ i board,
    foldl (λ board j, wr board i j (rd temp i j)) board (cols i)) board =
  fill_cells (rd temp) (seqZ 0 kBoardHeight) cols board.
Proof. done. Qed.

Lemma board_compute_openmp_closed rows cols board temp :
  wf_grid board → wf_grid temp →
  schedule kBoardHeight rows →
  (∀ i, 0 ≤ i < kBoardHeight → schedule kBoardWidth (cols i)) →
  board_compute_openmp rows cols board temp =
  (grid_of (next_cell board), grid_of (next_cell board)).
Proof.
  intros Hb Ht Hrows Hcols. unfold board_compute_openmp, omp_parallel_for.
  rewrite compute_rows, copy_rows.
  rewrite (fill_cells_all _ rows) by (done || intros; apply schedule_seqZ).
  rewrite fill_cells_all by (done || apply schedule_seqZ).
  rewrite (grid_of_ext (rd (grid_of (next_cell board))) (next_cell board));
    [reflexivity|].
  intros i j Hin. by apply rd_grid_of.
Qed.

Lemma interleaved_rows_spec tasks board temp :
  wf_grid temp → Forall inside tasks →
  wf_grid (interleaved_rows tasks board temp) ∧
  ∀ i j, in_grid i j →
    rd (interleaved_rows tasks board temp) i j =
    if decide ((i, j) ∈ tasks) then next_cell board i j else rd temp i j.
Proof.
  intros Ht Htasks. revert temp Ht. unfold interleaved_rows.
  induction Htasks as [|[a b] tasks Hq Htasks IH]; intros temp Ht.
  - split; [done|]. intros i j _. rewrite decide_False; [done|].
    by intros ?%elem_of_nil.
  - cbn [foldl fst snd]. rewrite cell_update_wr.
    destruct (IH (wr temp a b (next_cell board a b))) as [Hwf Hrd];
      [by apply wf_grid_wr|].
    split; [done|]. intros i j Hin. rewrite Hrd by done.
    destruct (decide ((i, j) ∈ tasks)) as [Hl|Hnl].
    { rewrite decide_True; [done|by right]. }
    destruct Hin as [Hi Hj]. rewrite rd_wr by (done || lia).
    destruct (decide (i = a ∧ j = b)) as [[-> ->]|Hne].
    + rewrite decide_True; [done|by left].
    + rewrite decide_False; [done|].
      intros [[= -> ->]|?]%elem_of_cons; tauto.
Qed.

(** Every interleaving of the cell updates that performs each of them leaves
    in [temp] what the row loop leaves in it under any schedule. *)
Lemma rows_any_interleaving tasks rows board temp :
  wf_grid temp → Forall inside tasks →
  (∀ i j, in_grid i j → (i, j) ∈ tasks) →
  schedule kBoardHeight rows →
  interleaved_rows tasks board temp =
  omp_parallel_for rows (λ i temp, board_compute_thread board temp i) temp.
Proof.
  intros Ht Htasks Hall Hrows. unfold omp_parallel_for.
  rewrite compute_rows, fill_cells_all by (done || intros; apply schedule_seqZ).
  destruct (interleaved_rows_spec tasks board temp Ht Htasks) as [Hwf Hrd].
  apply grid_ext; [done|apply wf_grid_of|].
  intros i j Hin. rewrite Hrd, rd_grid_of by done.
  by rewrite decide_True by by apply Hall.
Qed.

Lemma board_compute_closed board temp :
  wf_grid board → wf_grid temp →
  board_compute board temp =
  (grid_of (next_cell board), grid_of (next_cell board)).
Proof.
  intros Hb Ht.
  rewrite <- (board_compute_openmp_closed
    (seqZ 0 kBoardHeight) (λ _, seqZ 0 kBoardWidth) board temp)
    by (done || intros; apply schedule_seqZ).
  done.
Qed.
End engine.

(** ** Neighbour counting *)

Ltac grid_bounds :=
  unfold inside, in_grid, kBoardHeight, kBoardWidth, kMaxHeight, kMaxWidth in *;
  cbn [fst snd] in *; lia.

Ltac sift_neighbours :=
  repeat first
    [ rewrite filter_cons_True by grid_bounds
    | rewrite filter_cons_False by grid_bounds ];
  rewrite filter_nil.

Section counting.
Implicit Types (board : grid) (i j : Z).

(** The guarded additions of [board_compute_thread] add up exactly the
    cells at the neighbours, in a [Uint32]. *)
Lemma count_around_sum board i j :
  in_grid i j →
  count_around board i j = sum_cells board (neighbours i j) mod 2 ^ 32.
Proof.
  intros Hin. unfold count_around, neighbours, surrounding.
  destruct (Z.eqb_spec i 0), (Z.eqb_spec j 0),
    (Z.ltb_spec j kMaxWidth), (Z.ltb_spec i kMaxHeight);
    cbn [negb]; try (exfalso; grid_bounds); sift_neighbours;
    unfold sum_cells, cell_at, Uint32_add; cbn [fmap list_fmap foldr fst snd];
    repeat (rewrite <- !Z.add_assoc || rewrite Zplus_mod_idemp_l);
    f_equal; lia.
Qed.

Lemma sum_cells_cons board p l :
  sum_cells board (p :: l) = cell_at board p + sum_cells board l.
Proof. done. Qed.

(** On a binary board the sum over cells inside the board is the number
    of live cells among them. *)
Lemma sum_cells_binary board l :
  binary_grid board → Forall inside l →
  sum_cells board l =
  Z.of_nat (length (filter (λ p, cell_at board p = 1) l)).
Proof.
  intros Hbin Hl. induction Hl as [|p l Hp Hl IH]; [done|].
  rewrite sum_cells_cons, IH, filter_cons.
  destruct (Hbin p.1 p.2 Hp) as [H0|H1]; unfold cell_at in *.
  - rewrite decide_False by lia. lia.
  - rewrite decide_True by done. simpl length. lia.
Qed.

Lemma neighbours_inside i j : Forall inside (neighbours i j).
Proof. apply Forall_forall. intros p Hp. by apply list_elem_of_filter in Hp as [? _]. Qed.

Lemma live_neighbours_range board i j : 0 ≤ live_neighbours board i j ≤ 8.
Proof.
  unfold live_neighbours, neighbours.
  pose proof (length_filter (λ p, cell_at board p = 1)
                (filter inside (surrounding i j))) as H1.
  pose proof (length_filter inside (surrounding i j)) as H2.
  simpl length in H2. lia.
Qed.

Lemma count_around_live board i j :
  binary_grid board → in_grid i j →
  count_around board i j = live_neighbours board i j.
Proof.
  intros Hbin Hin. rewrite count_around_sum by done.
  rewrite sum_cells_binary by (done || apply neighbours_inside).
  fold (live_neighbours board i j).
  pose proof (live_neighbours_range board i j).
  apply Z.mod_small. lia.
Qed.

(** What [board_compute_thread] stores is the rule of the specification
    applied to the cell and to the number of its live neighbours. *)
Lemma next_cell_rule board i j :
  binary_grid board → in_grid i j →
  next_cell board i j =
  Z.b2z (nextState (rd board i j =? 1) (live_neighbours board i j)).
Proof.
  intros Hbin Hin. unfold next_cell. rewrite count_around_live by done.
  unfold nextState. generalize (live_neighbours board i j). intros n.
  destruct (Hbin i j Hin) as [->| ->]; simpl.
  - by destruct (_ =? 3).
  - by destruct (_ =? 2), (_ =? 3).
Qed.

Lemma shows_binary board (p : pattern) : shows board p → binary_grid board.
Proof. intros Hp i j Hin. rewrite (Hp i j Hin). destruct (p i j); auto. Qed.

Lemma sum_cells_pattern board (p : pattern) l :
  Forall (agrees board p) l →
  sum_cells board (filter inside l) =
  foldr Z.add 0 ((λ q, Z.b2z (p q.1 q.2)) <$> l).
Proof.
  intros Hl. induction Hl as [|q l [Hin Hout] Hl IH]; [done|].
  rewrite filter_cons, fmap_cons. cbn [foldr]. case_decide as Hq.
  - by rewrite sum_cells_cons, IH, (Hin Hq).
  - by rewrite IH, (Hout Hq).
Qed.

Lemma count_pattern_range (p : pattern) i j : 0 ≤ count_pattern p i j ≤ 8.
Proof.
  unfold count_pattern.
  assert (∀ l : list (Z * Z),
    0 ≤ foldr Z.add 0 ((λ q, Z.b2z (p q.1 q.2)) <$> l) ≤ Z.of_nat (length l))
    as Hsum.
  { induction l as [|q l IH]; [simpl; lia|].
    rewrite fmap_cons. cbn [foldr length]. destruct (p q.1 q.2); simpl Z.b2z; lia. }
  apply (Hsum (surrounding i j)).
Qed.

(** Where the board agrees with a pattern around a cell, the clipped count
    is the count on the unbounded plane, and the cell of the next
    generation is the pattern's. *)
Lemma next_cell_local board (p : pattern) i j :
  in_grid i j → rd board i j = Z.b2z (p i j) →
  Forall (agrees board p) (surrounding i j) →
  next_cell board i j = Z.b2z (step_pattern p i j).
Proof.
  intros Hin Hself Hnear. unfold next_cell, step_pattern.
  rewrite count_around_sum by done. unfold neighbours.
  rewrite (sum_cells_pattern board p) by done. fold (count_pattern p i j).
  pose proof (count_pattern_range p i j) as Hrange.
  rewrite Z.mod_small by lia. rewrite Hself. unfold nextState.
  generalize (count_pattern p i j). intros n.
  destruct (p i j); simpl.
  - by destruct (_ =? 2), (_ =? 3).
  - by destruct (_ =? 3).
Qed.

Lemma agrees_surrounding board (p : pattern) i j :
  (∀ a b, i - 1 ≤ a ≤ i + 1 → j - 1 ≤ b ≤ j + 1 → agrees board p (a, b)) →
  Forall (agrees board p) (surrounding i j).
Proof.
  intros H. unfold surrounding.
  repeat (apply Forall_cons_2; [apply H; lia|]). apply Forall_nil_2.
Qed.

Lemma next_cell_pattern board (p : pattern) i j :
  shows board p → confined p → in_grid i j →
  next_cell board i j = Z.b2z (step_pattern p i j).
Proof.
  intros Hp Hout Hin. apply next_cell_local; [done|by apply Hp|].
  apply Forall_forall. intros q _. split.
  - apply Hp.
  - apply Hout.
Qed.

Lemma shows_board_of (p : pattern) : shows (board_of p) p.
Proof. intros i j Hin. unfold board_of. by rewrite rd_grid_of. Qed.

Lemma board_of_unique board (p : pattern) :
  wf_grid board → shows board p → board = board_of p.
Proof.
  intros Hwf Hp. apply grid_ext; [done|apply wf_grid_of|].
  intros i j Hin. by rewrite Hp, shows_board_of.
Qed.

(** One generation on a board that shows a confined pattern. *)
Lemma board_compute_pattern board temp (p : pattern) :
  wf_grid board → wf_grid temp → shows board p → confined p →
  board_compute board temp =
  (board_of (step_pattern p), board_of (step_pattern p)).
Proof.
  intros Hb Ht Hp Hout. rewrite board_compute_closed by done.
  unfold board_of.
  rewrite (grid_of_ext (next_cell board) (λ i j, Z.b2z (step_pattern p i j)));
    [done|].
  intros i j Hin. by apply next_cell_pattern.
Qed.

Lemma board_of_ext (p1 p2 : pattern) :
  (∀ i j, p1 i j = p2 i j) → board_of p1 = board_of p2.
Proof. intros H. apply grid_of_ext. intros i j _. by rewrite H. Qed.

Lemma board_compute_thread_spec board temp height :
  wf_grid temp → 0 ≤ height < kBoardHeight →
  wf_grid (board_compute_thread board temp height) ∧
  ∀ i j, in_grid i j →
    rd (board_compute_thread board temp height) i j =
    if decide (i = height) then next_cell board i j else rd temp i j.
Proof.
  intros Ht Hh.
  change (board_compute_thread board temp height) with
    (foldl (λ temp i, board_compute_thread board temp i) temp [height]).
  rewrite compute_rows.
  destruct (fill_cells_spec (next_cell board) [height]
              (λ _, seqZ 0 kBoardWidth) temp) as [Hwf Hrd]; [done|..].
  { by apply Forall_singleton. }
  { intros. apply schedule_range, schedule_seqZ. }
  split; [done|]. intros i j Hin. rewrite Hrd by done.
  destruct Hin as [_ Hj].
  destruct (decide (i = height)) as [->|Hne].
  - rewrite decide_True; [done|]. split; [apply list_elem_of_singleton; done|].
    apply elem_of_seqZ. lia.
  - rewrite decide_False; [done|]. intros [?%list_elem_of_singleton _]. done.
Qed.
End counting.

(** ** Still lifes and oscillators on the unbounded plane *)

Ltac split_comparisons :=
  repeat match goal with
  | |- context [?a =? ?b] => destruct (Z.eqb_spec a b); try lia
  | |- context [?a <=? ?b] => destruct (Z.leb_spec a b); try lia
  end.

Section plane.
Implicit Types (r c i j : Z).

Lemma step_block r c i j : step_pattern (block r c) i j = block r c i j.
Proof.
  unfold step_pattern, count_pattern, surrounding, block.
  cbn [fmap list_fmap foldr fst snd].
  split_comparisons; reflexivity.
Qed.

Lemma step_horizontal r c i j :
  step_pattern (horizontal r c) i j = vertical r c i j.
Proof.
  unfold step_pattern, count_pattern, surrounding, horizontal, vertical.
  cbn [fmap list_fmap foldr fst snd].
  split_comparisons; reflexivity.
Qed.

Lemma step_vertical r c i j :
  step_pattern (vertical r c) i j = horizontal r c i j.
Proof.
  unfold step_pattern, count_pattern, surrounding, horizontal, vertical.
  cbn [fmap list_fmap foldr fst snd].
  split_comparisons; reflexivity.
Qed.
End plane.

(** ** Reset *)

Section reset.
Implicit Types (game : GameContainer).

Lemma reset_columns game i l :
  foldl (λ game j,
    let game := set_board game (wr (board game) i j 0) in
    set_temp game (wr (temp game) i j 0)) game l =
  with_boards game
    (foldl (λ t j, wr t i j 0) (board game) l)
    (foldl (λ t j, wr t i j 0) (temp game) l).
Proof.
  revert game. induction l as [|j l IH]; intros game; simpl.
  - by destruct game.
  - rewrite IH. by destruct game.
Qed.

Lemma reset_rows game rows :
  foldl (λ game i,
    for_loop kBoardWidth (λ j game,
      let game := set_board game (wr (board game) i j 0) in
      set_temp game (wr (temp game) i j 0)) game) game rows =
  with_boards game
    (fill_cells (λ _ _, 0) rows (λ _, seqZ 0 kBoardWidth) (board game))
    (fill_cells (λ _ _, 0) rows (λ _, seqZ 0 kBoardWidth) (temp game)).
Proof.
  revert game. induction rows as [|i rows IH]; intros game.
  - by destruct game.
  - cbn [foldl fill_cells]. unfold for_loop at 2. rewrite reset_columns, IH.
    by destruct game.
Qed.

Lemma board_reset_closed game :
  wf_grid (board game) → wf_grid (temp game) →
  board_reset game = with_boards game blank blank.
Proof.
  intros Hb Ht. unfold board_reset, for_loop at 1. rewrite reset_rows.
  rewrite !fill_cells_all by (done || intros; apply schedule_seqZ). done.
Qed.
End reset.

(** ** The properties of the specification *)

(** C1. Output equivalence of the two strategies: on boards of the allocated
    shape, whatever order the OpenMP runtime gives to the row iterations and
    to the column iterations of the copy, [board_compute_openmp] leaves the
    same [board] and the same [temp] as [board_compute]. *)
Theorem strategies_agree rows cols board temp :
  wf_grid board → wf_grid temp →
  schedule kBoardHeight rows →
  (∀ i, 0 ≤ i < kBoardHeight → schedule kBoardWidth (cols i)) →
  board_compute_openmp rows cols board temp = board_compute board temp.
Proof.
  intros Hb Ht Hrows Hcols.
  rewrite board_compute_openmp_closed, board_compute_closed; done.
Qed.

Lemma strategies_agree_witness :
  let rows := reverse (seqZ 0 kBoardHeight) in
  let cols := λ _ : Z, reverse (seqZ 0 kBoardWidth) in
  wf_grid (board_of (horizontal 3 4)) ∧ wf_grid blank ∧
  schedule kBoardHeight rows ∧
  board_compute_openmp rows cols (board_of (horizontal 3 4)) blank =
  board_compute (board_of (horizontal 3 4)) blank.
Proof.
  intros rows cols.
  assert (schedule kBoardHeight rows) as Hrows by apply reverse_Permutation.
  assert (∀ i, 0 ≤ i < kBoardHeight → schedule kBoardWidth (cols i)) as Hcols
    by (intros; apply reverse_Permutation).
  split; [apply wf_grid_of|]. split; [apply wf_grid_of|]. split; [exact Hrows|].
  exact (strategies_agree rows cols _ _ (wf_grid_of _) (wf_grid_of _) Hrows Hcols).
Defined.

(** C9. When [board_compute] or [board_compute_openmp] returns, [temp] is
    cell for cell equal to [board] and both hold the new generation: both
    keep the allocated shape, and every cell of either is what the rule
    gives for the prior [board], which on a binary board is [nextState] of
    the prior cell and of the number of its live neighbours. *)
Theorem buffers_agree rows cols board temp :
  wf_grid board → wf_grid temp →
  schedule kBoardHeight rows →
  (∀ i, 0 ≤ i < kBoardHeight → schedule kBoardWidth (cols i)) →
  (∀ i j,
     rd (board_compute board temp).2 i j = rd (board_compute board temp).1 i j ∧
     rd (board_compute_openmp rows cols board temp).2 i j =
     rd (board_compute_openmp rows cols board temp).1 i j) ∧
  wf_grid (board_compute board temp).1 ∧
  wf_grid (board_compute board temp).2 ∧
  wf_grid (board_compute_openmp rows cols board temp).1 ∧
  wf_grid (board_compute_openmp rows cols board temp).2 ∧
  (∀ i j, in_grid i j →
     rd (board_compute board temp).2 i j = next_cell board i j ∧
     rd (board_compute_openmp rows cols board temp).2 i j = next_cell board i j ∧
     (binary_grid board →
      rd (board_compute board temp).2 i j =
        Z.b2z (nextState (rd board i j =? 1) (live_neighbours board i j)) ∧
      rd (board_compute_openmp rows cols board temp).2 i j =
        Z.b2z (nextState (rd board i j =? 1) (live_neighbours board i j)))).
Proof.
  intros Hb Ht Hrows Hcols.
  rewrite board_compute_openmp_closed, board_compute_closed by done.
  cbn [fst snd]. split; [done|].
  repeat (split; [apply wf_grid_of|]).
  intros i j Hin. rewrite rd_grid_of by done.
  repeat (split; [done|]).
  intros Hbin. by rewrite next_cell_rule.
Qed.

Lemma buffers_agree_witness :
  let board := board_of (horizontal 3 4) in
  rd (board_compute board (board_of (vertical 7 7))).2 2 4 =
  rd (board_compute board (board_of (vertical 7 7))).1 2 4 ∧
  wf_grid (board_compute board (board_of (vertical 7 7))).2 ∧
  rd (board_compute board (board_of (vertical 7 7))).2 2 4 =
  Z.b2z (nextState (rd board 2 4 =? 1) (live_neighbours board 2 4)).
Proof.
  intros board.
  assert (in_grid 2 4) as Hin by (unfold in_grid; split; split; reflexivity || discriminate).
  assert (binary_grid board) as Hbin
    by exact (shows_binary _ _ (shows_board_of (horizontal 3 4))).
  pose proof (buffers_agree (seqZ 0 kBoardHeight) (λ _, seqZ 0 kBoardWidth)
    board (board_of (vertical 7 7)) (wf_grid_of _) (wf_grid_of _)
    (schedule_seqZ _) (λ i _, schedule_seqZ _))
    as (Heq & _ & Hwf & _ & _ & Hnew).
  split; [exact (proj1 (Heq 2 4))|]. split; [exact Hwf|].
  exact (proj1 (proj2 (proj2 (Hnew 2 4 Hin)) Hbin)).
Defined.

(** C10. Whatever integers the cells of the input hold, after [board_compute]
    both [board] and [temp] have the allocated shape and every cell of both
    holds 0 or 1. *)
Theorem binary_after_compute board temp :
  wf_grid board → wf_grid temp →
  wf_grid (board_compute board temp).1 ∧
  wf_grid (board_compute board temp).2 ∧
  binary_grid (board_compute board temp).1 ∧
  binary_grid (board_compute board temp).2.
Proof.
  intros Hb Ht. rewrite board_compute_closed by done. cbn [fst snd].
  assert (binary_grid (grid_of (next_cell board))) as Hbin.
  { intros i j Hin. rewrite rd_grid_of by done.
    unfold next_cell. repeat case_match; auto. }
  split_and!; (done || apply wf_grid_of).
Qed.

Lemma binary_after_compute_witness :
  let board := grid_of (λ i j, 7 * i - 3 * j) in
  rd board 2 1 = 11 ∧
  wf_grid (board_compute board board).1 ∧
  wf_grid (board_compute board board).2 ∧
  binary_grid (board_compute board board).1 ∧
  binary_grid (board_compute board board).2.
Proof.
  intros board. split; [reflexivity|].
  exact (binary_after_compute board board (wf_grid_of _) (wf_grid_of _)).
Defined.

(** C4. After a generation-advance by either strategy, every cell of [board]
    is the transition rule applied to the cell's own prior value and to the
    number of its live neighbours on the prior [board]. *)
Theorem generation_advance rows cols board temp :
  wf_grid board → wf_grid temp → binary_grid board →
  schedule kBoardHeight rows →
  (∀ i, 0 ≤ i < kBoardHeight → schedule kBoardWidth (cols i)) →
  ∀ i j, in_grid i j →
    rd (board_compute board temp).1 i j =
      Z.b2z (nextState (rd board i j =? 1) (live_neighbours board i j)) ∧
    rd (board_compute_openmp rows cols board temp).1 i j =
      Z.b2z (nextState (rd board i j =? 1) (live_neighbours board i j)).
Proof.
  intros Hb Ht Hbin Hrows Hcols i j Hin.
  rewrite board_compute_openmp_closed, board_compute_closed by done. cbn [fst snd].
  rewrite rd_grid_of by done. split; by apply next_cell_rule.
Qed.

Lemma generation_advance_witness :
  let board := board_of (horizontal 3 4) in
  binary_grid board ∧ in_grid 2 4 ∧
  rd (board_compute board blank).1 2 4 =
    Z.b2z (nextState (rd board 2 4 =? 1) (live_neighbours board 2 4)).
Proof.
  intros board.
  assert (binary_grid board) as Hbin
    by exact (shows_binary _ _ (shows_board_of (horizontal 3 4))).
  assert (in_grid 2 4) as Hin by (unfold in_grid; split; split; reflexivity || discriminate).
  split; [exact Hbin|]. split; [exact Hin|].
  refine (proj1 (generation_advance (seqZ 0 kBoardHeight) (λ _, seqZ 0 kBoardWidth)
    board blank (wf_grid_of _) (wf_grid_of _) Hbin _ _ 2 4 Hin)).
  - apply schedule_seqZ.
  - intros; apply schedule_seqZ.
Defined.

(** C2. The per-cell transition of [board_compute_thread]: with [self] the
    cell's own value and [count] the neighbour count accumulated for it
    (the number of live neighbours on a binary board), a dead cell with
    exactly 3 becomes alive, an alive cell with 2 or 3 stays alive, and every
    other combination gives a dead cell; in particular a dead cell with
    exactly 2 or exactly 4 stays dead. *)
Theorem transition_rule board temp height width :
  wf_grid temp → in_grid height width →
  let self := rd board height width in
  let count := count_around board height width in
  let next := rd (board_compute_thread board temp height) height width in
  (self = 0 → count = 3 → next = 1) ∧
  (self = 1 → count = 2 ∨ count = 3 → next = 1) ∧
  (¬ (self = 0 ∧ count = 3) → ¬ (self = 1 ∧ (count = 2 ∨ count = 3)) → next = 0) ∧
  (self = 0 → count = 2 → next = 0) ∧
  (self = 0 → count = 4 → next = 0) ∧
  (binary_grid board → count = live_neighbours board height width).
Proof.
  intros Ht Hin self count next.
  assert (next = next_cell board height width) as Hnext.
  { destruct (board_compute_thread_spec board temp height Ht) as [_ Hrd];
      [apply Hin|].
    unfold next. rewrite Hrd by done. by rewrite decide_True. }
  rewrite Hnext. unfold next_cell. fold self count.
  repeat split.
  - intros -> ->. done.
  - intros -> [-> | ->]; done.
  - intros H1 H2.
    destruct (Z.eqb_spec self 0), (Z.eqb_spec self 1),
      (Z.eqb_spec count 2), (Z.eqb_spec count 3); simpl; tauto.
  - intros -> ->. done.
  - intros -> ->. done.
  - intros Hbin. by apply count_around_live.
Qed.

Lemma transition_rule_witness :
  let board := board_of (horizontal 3 4) in
  rd board 2 4 = 0 ∧ count_around board 2 4 = 3 ∧
  rd (board_compute_thread board blank 2) 2 4 = 1.
Proof.
  intros board.
  assert (in_grid 2 4) as Hin by (unfold in_grid; split; split; reflexivity || discriminate).
  assert (rd board 2 4 = 0) as Hself by reflexivity.
  assert (count_around board 2 4 = 3) as Hcount by reflexivity.
  split; [exact Hself|]. split; [exact Hcount|].
  exact (proj1 (transition_rule board blank 2 4 (wf_grid_of _) Hin) Hself Hcount).
Defined.

(** C3. The count accumulated by [board_compute_thread] for a cell is the sum,
    in a [Uint32], of the cells at those of the 8 surrounding coordinates that
    lie inside the board, and on a binary board it is that sum itself;
    coordinates outside contribute nothing.  In particular the corner has the
    three neighbours (0,1), (1,0) and (1,1) only: when these are alive and
    (0,0) is dead, (0,0) is alive after one [board_compute]. *)
Theorem clipped_count :
  (∀ board i j, in_grid i j →
     count_around board i j = sum_cells board (neighbours i j) mod 2 ^ 32) ∧
  (∀ board i j, binary_grid board → in_grid i j →
     count_around board i j = sum_cells board (neighbours i j)) ∧
  neighbours 0 0 = [(0, 1); (1, 0); (1, 1)] ∧
  (∀ board temp, wf_grid board → wf_grid temp →
     rd board 0 0 = 0 → rd board 0 1 = 1 → rd board 1 0 = 1 → rd board 1 1 = 1 →
     rd (board_compute board temp).1 0 0 = 1).
Proof.
  split; [|split; [|split]].
  - intros board i j Hin. by apply count_around_sum.
  - intros board i j Hbin Hin. rewrite count_around_live by done.
    unfold live_neighbours.
    by rewrite sum_cells_binary by (done || apply neighbours_inside).
  - reflexivity.
  - intros board temp Hb Ht H00 H01 H10 H11.
    assert (in_grid 0 0) as Hin by (unfold in_grid; split; split; reflexivity || discriminate).
    rewrite board_compute_closed by done. cbn [fst snd].
    rewrite rd_grid_of by done. unfold next_cell.
    rewrite count_around_sum by done.
    change (neighbours 0 0) with [(0, 1); (1, 0); (1, 1)].
    unfold sum_cells, cell_at. cbn [fmap list_fmap foldr fst snd].
    rewrite H00, H01, H10, H11. reflexivity.
Qed.

Lemma clipped_count_witness :
  let board := board_of corner in
  rd board 0 0 = 0 ∧ rd board 0 1 = 1 ∧ rd board 1 0 = 1 ∧ rd board 1 1 = 1 ∧
  rd (board_compute board blank).1 0 0 = 1.
Proof.
  intros board.
  assert (rd board 0 0 = 0) as H00 by reflexivity.
  assert (rd board 0 1 = 1) as H01 by reflexivity.
  assert (rd board 1 0 = 1) as H10 by reflexivity.
  assert (rd board 1 1 = 1) as H11 by reflexivity.
  repeat (split; [assumption|]).
  exact (proj2 (proj2 (proj2 clipped_count)) board blank
           (wf_grid_of _) (wf_grid_of _) H00 H01 H10 H11).
Defined.

(** C5. [board_reset] sets every cell of [board] and of [temp] to dead:
    both become the all-dead board of the allocated shape, nothing else in
    the container changes, and a second [board_reset] changes nothing. *)
Theorem reset_idempotent game :
  wf_grid (board game) → wf_grid (temp game) →
  board (board_reset game) = blank ∧
  temp (board_reset game) = blank ∧
  wf_grid (board (board_reset game)) ∧
  wf_grid (temp (board_reset game)) ∧
  (∀ i j, in_grid i j →
     rd (board (board_reset game)) i j = 0 ∧
     rd (temp (board_reset game)) i j = 0) ∧
  board_reset (board_reset game) = board_reset game.
Proof.
  intros Hb Ht. rewrite (board_reset_closed game) by done.
  assert (board (with_boards game blank blank) = blank) as Hboard
    by by destruct game.
  assert (temp (with_boards game blank blank) = blank) as Htemp
    by by destruct game.
  rewrite Hboard, Htemp.
  split; [reflexivity|]. split; [reflexivity|].
  split; [apply wf_grid_of|]. split; [apply wf_grid_of|]. split.
  - intros i j Hin. unfold blank. by rewrite rd_grid_of by done.
  - rewrite board_reset_closed by (rewrite ?Hboard, ?Htemp; apply wf_grid_of).
    by destruct game.
Qed.

Lemma reset_idempotent_witness :
  let game := mkGame Draw_board Board_compute
                (board_of (block 3 3)) (board_of (vertical 9 9)) 0 1 0 in
  rd (board game) 3 3 = 1 ∧
  board (board_reset game) = blank ∧
  wf_grid (temp (board_reset game)) ∧
  rd (board (board_reset game)) 3 3 = 0 ∧
  board_reset (board_reset game) = board_reset game.
Proof.
  intros game.
  assert (in_grid 3 3) as Hin by (unfold in_grid; split; split; reflexivity || discriminate).
  pose proof (reset_idempotent game (wf_grid_of _) (wf_grid_of _))
    as (Hblank & _ & _ & Hwf & Hdead & Hidem).
  split; [reflexivity|]. split; [exact Hblank|]. split; [exact Hwf|].
  split; [exact (proj1 (Hdead 3 3 Hin))|exact Hidem].
Defined.

Lemma confined_block r c :
  0 ≤ r → r + 1 < kBoardHeight → 0 ≤ c → c + 1 < kBoardWidth →
  confined (block r c).
Proof.
  intros Hr1 Hr2 Hc1 Hc2 i j Hout. unfold block.
  split_comparisons; try reflexivity. exfalso. apply Hout. grid_bounds.
Qed.

Lemma confined_horizontal r c :
  0 ≤ r < kBoardHeight → 0 ≤ c - 1 → c + 1 < kBoardWidth →
  confined (horizontal r c).
Proof.
  intros Hr Hc1 Hc2 i j Hout. unfold horizontal.
  split_comparisons; try reflexivity. exfalso. apply Hout. grid_bounds.
Qed.

Lemma confined_vertical r c :
  0 ≤ r - 1 → r + 1 < kBoardHeight → 0 ≤ c < kBoardWidth →
  confined (vertical r c).
Proof.
  intros Hr1 Hr2 Hc i j Hout. unfold vertical.
  split_comparisons; try reflexivity. exfalso. apply Hout. grid_bounds.
Qed.

(** C6, as the code has it. A 2x2 block of alive cells away from the edge,
    with every cell of the border around it dead: the four cells are alive
    after one generation whatever the rest of the board holds, and when every
    other cell of the board is dead as well, the board after one generation
    is the board before it. *)
Theorem block_still_life board temp r c :
  wf_grid board → wf_grid temp →
  1 ≤ r → r + 1 ≤ kBoardHeight - 2 → 1 ≤ c → c + 1 ≤ kBoardWidth - 2 →
  (∀ i j, r - 1 ≤ i ≤ r + 2 → c - 1 ≤ j ≤ c + 2 →
     rd board i j = Z.b2z (block r c i j)) →
  (∀ i j, block r c i j = true → rd (board_compute board temp).1 i j = 1) ∧
  ((∀ i j, in_grid i j → ¬ (r - 1 ≤ i ≤ r + 2 ∧ c - 1 ≤ j ≤ c + 2) →
      rd board i j = 0) →
   (board_compute board temp).1 = board).
Proof.
  intros Hb Ht Hr1 Hr2 Hc1 Hc2 Hring. split.
  - intros i j Hblock.
    assert (r ≤ i ≤ r + 1 ∧ c ≤ j ≤ c + 1) as Hij.
    { unfold block in Hblock. apply andb_prop in Hblock as [Hblock ?].
      apply andb_prop in Hblock as [Hblock ?].
      apply andb_prop in Hblock as [??]. lia. }
    assert (in_grid i j) as Hin by grid_bounds.
    rewrite board_compute_closed by done. cbn [fst snd]. rewrite rd_grid_of by done.
    rewrite (next_cell_local board (block r c)), step_block, Hblock; [done..| |].
    + apply Hring; lia.
    + apply agrees_surrounding. intros a b Ha Hb'. split.
      * intros _. unfold cell_at. cbn [fst snd]. apply Hring; lia.
      * intros Hout. exfalso. apply Hout. grid_bounds.
  - intros Hrest.
    assert (shows board (block r c)) as Hshows.
    { intros i j Hin.
      destruct (decide (r - 1 ≤ i ≤ r + 2 ∧ c - 1 ≤ j ≤ c + 2)) as [[??]|Hout].
      - by apply Hring.
      - rewrite Hrest by done. unfold block. split_comparisons; reflexivity. }
    rewrite (board_compute_pattern board temp (block r c));
      [|done|done|done|apply confined_block; grid_bounds].
    cbn [fst snd]. rewrite (board_of_ext _ (block r c)) by apply step_block.
    symmetry. by apply board_of_unique.
Qed.

Lemma block_still_life_witness :
  let board := board_of (block 4 6) in
  rd board 4 6 = 1 ∧ rd board 3 5 = 0 ∧
  (board_compute board blank).1 = board.
Proof.
  intros board. split; [reflexivity|]. split; [reflexivity|].
  assert (shows board (block 4 6)) as Hshows by apply shows_board_of.
  assert (∀ i j, 4 - 1 ≤ i ≤ 4 + 2 → 6 - 1 ≤ j ≤ 6 + 2 →
            rd board i j = Z.b2z (block 4 6 i j)) as Hring.
  { intros i j Hi Hj. apply Hshows. grid_bounds. }
  refine (proj2 (block_still_life board blank 4 6 (wf_grid_of _) (wf_grid_of _)
                   _ _ _ _ Hring) _); try (unfold kBoardHeight, kBoardWidth; lia).
  intros i j Hin Hout. rewrite (Hshows i j Hin). unfold block.
  split_comparisons; reflexivity.
Defined.

(** C6, as the specification words it, does not hold: the block at (4, 6)
    with a dead border, away from the edge, together with a three-cell line
    on row 20.  The line turns, so the board after one generation is not the
    board before it. *)
Lemma block_with_line_changes :
  let board := board_of (λ i j, block 4 6 i j || horizontal 20 10 i j) in
  (∀ i j, 4 - 1 ≤ i ≤ 4 + 2 → 6 - 1 ≤ j ≤ 6 + 2 →
     rd board i j = Z.b2z (block 4 6 i j)) ∧
  rd board 19 10 = 0 ∧
  rd (board_compute board blank).1 19 10 = 1 ∧
  (board_compute board blank).1 ≠ board.
Proof.
  intros board. split.
  { intros i j Hi Hj. subst board.
    rewrite (shows_board_of _ i j) by grid_bounds. f_equal.
    assert (horizontal 20 10 i j = false) as ->; [|by rewrite orb_false_r].
    unfold horizontal. split_comparisons; reflexivity. }
  assert (rd board 19 10 = 0) as Hbefore by reflexivity.
  assert (rd (board_compute board blank).1 19 10 = 1) as Hafter
    by (vm_compute; reflexivity).
  split; [exact Hbefore|]. split; [exact Hafter|].
  intros Heq. rewrite Heq, Hbefore in Hafter. discriminate Hafter.
Qed.

(** C7. A board whose only live cells are the horizontal line (r, c-1),
    (r, c), (r, c+1), with 1 <= r <= height-2, 1 <= c-1 and c+1 <= width-2:
    one generation gives exactly the vertical line (r-1, c), (r, c), (r+1, c),
    and a second generation gives the first board back. *)
Theorem blinker_oscillates board temp r c :
  wf_grid board → wf_grid temp →
  1 ≤ r ≤ kBoardHeight - 2 → 1 ≤ c - 1 → c + 1 ≤ kBoardWidth - 2 →
  shows board (horizontal r c) →
  let '(board1, temp1) := board_compute board temp in
  shows board1 (vertical r c) ∧ (board_compute board1 temp1).1 = board.
Proof.
  intros Hb Ht Hr Hc1 Hc2 Hshows.
  rewrite (board_compute_pattern board temp (horizontal r c));
    [|done|done|done|apply confined_horizontal; grid_bounds].
  rewrite (board_of_ext _ (vertical r c)) by apply step_horizontal.
  split; [apply shows_board_of|].
  rewrite (board_compute_pattern _ _ (vertical r c));
    [|apply wf_grid_of|apply wf_grid_of|apply shows_board_of
     |apply confined_vertical; grid_bounds].
  cbn [fst snd]. rewrite (board_of_ext _ (horizontal r c)) by apply step_vertical.
  symmetry. by apply board_of_unique.
Qed.

Lemma blinker_oscillates_witness :
  let board := board_of (horizontal 1 2) in
  let '(board1, temp1) := board_compute board blank in
  shows board1 (vertical 1 2) ∧ (board_compute board1 temp1).1 = board.
Proof.
  intros board.
  refine (blinker_oscillates board blank 1 2 (wf_grid_of _) (wf_grid_of _) _ _ _
            (shows_board_of _)); unfold kBoardHeight, kBoardWidth; lia.
Defined.

(** C8, as the code has it. The argument handling of [main] knows three
    options.  Without an argument, and with [--thread] or [--opengl], the
    sequential [board_compute] is selected; [--openmp] selects
    [board_compute_openmp]; any other single argument, and any command line
    with more than one argument (or an empty [argv]), makes [main] return
    [EXIT_FAILURE] before anything is started. *)
Theorem main_options prog arg extra rest game :
  main [prog] game = Start (set_funcs game Board_compute Draw_board) ∧
  main [prog; "--openmp"] game =
    Start (set_funcs game Board_compute_openmp Draw_board_openmp) ∧
  main [prog; "--thread"] game =
    Start (set_funcs game Board_compute Draw_board_multithread) ∧
  main [prog; "--opengl"] game =
    Start (set_funcs (set_useOpenGL game Yes) Board_compute Draw_board) ∧
  (arg ≠ "--openmp" → arg ≠ "--thread" → arg ≠ "--opengl" →
   main [prog; arg] game = Return EXIT_FAILURE) ∧
  main (prog :: arg :: extra :: rest) game = Return EXIT_FAILURE ∧
  main [] game = Return EXIT_FAILURE.
Proof.
  repeat split; try reflexivity.
  - intros H1 H2 H3. unfold main. cbn [length Z.of_nat Z.eqb Pos.eqb Pos.of_succ_nat Pos.succ].
    change ([prog; arg] !!! 1%nat) with arg.
    apply String.eqb_neq in H1, H2, H3. by rewrite H1, H2, H3.
  - unfold main.
    destruct (Z.eqb_spec (Z.of_nat (length (prog :: arg :: extra :: rest))) 1) as [H|_];
      [simpl length in H; lia|].
    destruct (Z.eqb_spec (Z.of_nat (length (prog :: arg :: extra :: rest))) 2) as [H|_];
      [simpl length in H; lia|].
    reflexivity.
Qed.

Lemma main_options_witness :
  main ["gamelive"; "--sequential"] stack_garbage = Return EXIT_FAILURE.
Proof.
  refine (proj1 (proj2 (proj2 (proj2 (proj2
    (main_options "gamelive" "--sequential" "" [] stack_garbage))))) _ _ _);
    discriminate.
Defined.

(** C8, as the specification words it, does not hold: [--thread] is a
    supplied argument other than the one selecting the parallel strategy, and
    [main] does not return [EXIT_FAILURE] on it but goes on with the
    sequential [board_compute]. *)
Lemma main_thread_accepted :
  "--thread" ≠ "--openmp" ∧
  main ["gamelive"; "--thread"] stack_garbage ≠ Return EXIT_FAILURE ∧
  main ["gamelive"; "--thread"] stack_garbage =
    Start (set_funcs stack_garbage Board_compute Draw_board_multithread).
Proof. split; [discriminate|]. split; [discriminate|reflexivity]. Qed.

(** ** Concrete runs *)

(** The corner cell sees three neighbours. *)
Example corner_count : count_around (board_of corner) 0 0 = 3.
Proof. reflexivity. Qed.

(** The accumulator wraps: eight neighbours holding -1 count as [2^32 - 8]. *)
Example count_wraps : count_around (grid_of (λ _ _, -1)) 5 5 = 2 ^ 32 - 8.
Proof. reflexivity. Qed.

(** A line on the top row loses the cell that would lie above the board. *)
Example blinker_on_the_edge :
  (board_compute (board_of (horizontal 0 1)) blank).1 =
  board_of (λ i j, (j =? 1) && (i <=? 1)).
Proof. vm_compute. reflexivity. Qed.

(** The two strategies on a glider, the parallel one scheduled backwards. *)
Example glider_backwards :
  let glider : pattern := λ i j,
    ((i =? 1) && (j =? 2)) || ((i =? 2) && (j =? 3)) ||
    ((i =? 3) && (1 <=? j) && (j <=? 3)) in
  board_compute_openmp (reverse (seqZ 0 kBoardHeight))
    (λ _, reverse (seqZ 0 kBoardWidth)) (board_of glider) blank =
  board_compute (board_of glider) blank.
Proof. vm_compute. reflexivity. Qed.

(** [board_reset] on a painted board. *)
Example reset_painted :
  board (board_reset (mkGame Draw_board Board_compute
                        (board_of (block 3 3)) (board_of corner) 0 0 0)) = blank.
Proof. vm_compute. reflexivity. Qed.


(** ** Further properties of the engine *)

(** X1. [board_compute_thread] for one row writes that row only: every cell
    of [temp] in another row keeps its value. *)
Theorem thread_writes_own_row board temp height i j :
  wf_grid temp → 0 ≤ height < kBoardHeight → in_grid i j → i ≠ height →
  rd (board_compute_thread board temp height) i j = rd temp i j.
Proof.
  intros Ht Hh Hin Hne.
  destruct (board_compute_thread_spec board temp height Ht Hh) as [_ Hrd].
  rewrite Hrd by done. by rewrite decide_False.
Qed.

Lemma thread_writes_own_row_witness :
  rd (board_compute_thread (board_of (block 3 3)) (board_of corner) 3) 0 1 = 1.
Proof.
  rewrite (thread_writes_own_row (board_of (block 3 3)) (board_of corner) 3 0 1
             (wf_grid_of _)); [reflexivity|grid_bounds..|discriminate].
Defined.

(** X2. [temp] is scratch space: what it holds on entry has no influence on
    what [board_compute] and [board_compute_openmp] return. *)
Theorem temp_is_scratch rows cols board temp1 temp2 :
  wf_grid board → wf_grid temp1 → wf_grid temp2 →
  schedule kBoardHeight rows →
  (∀ i, 0 ≤ i < kBoardHeight → schedule kBoardWidth (cols i)) →
  board_compute board temp1 = board_compute board temp2 ∧
  board_compute_openmp rows cols board temp1 =
  board_compute_openmp rows cols board temp2.
Proof.
  intros Hb Ht1 Ht2 Hrows Hcols.
  by rewrite !board_compute_closed, !board_compute_openmp_closed.
Qed.

Lemma temp_is_scratch_witness :
  board_compute (board_of (horizontal 3 4)) blank =
  board_compute (board_of (horizontal 3 4)) (grid_of (λ i j, i - j)).
Proof.
  refine (proj1 (temp_is_scratch (seqZ 0 kBoardHeight) (λ _, seqZ 0 kBoardWidth)
    (board_of (horizontal 3 4)) blank (grid_of (λ i j, i - j))
    (wf_grid_of _) (wf_grid_of _) (wf_grid_of _) _ _)).
  - apply schedule_seqZ.
  - intros; apply schedule_seqZ.
Defined.

Lemma surrounding_near i j :
  Forall (λ q, i - 1 ≤ q.1 ≤ i + 1 ∧ j - 1 ≤ q.2 ≤ j + 1) (surrounding i j).
Proof.
  unfold surrounding.
  repeat (apply Forall_cons_2; [cbn [fst snd]; lia|]). apply Forall_nil_2.
Qed.

Lemma sum_cells_agree b1 b2 l :
  Forall (λ q, cell_at b1 q = cell_at b2 q) l → sum_cells b1 l = sum_cells b2 l.
Proof.
  intros Hl. induction Hl as [|q l Hq Hl IH]; [done|].
  by rewrite !sum_cells_cons, Hq, IH.
Qed.

(** X3. A cell of the next generation depends on the cell and on the cells
    next to it inside the board, and on nothing else: no cell further away,
    in particular none across an edge, has any influence. *)
Theorem next_generation_local board1 temp1 board2 temp2 i j :
  wf_grid board1 → wf_grid temp1 → wf_grid board2 → wf_grid temp2 →
  in_grid i j →
  (∀ a b, in_grid a b → i - 1 ≤ a ≤ i + 1 → j - 1 ≤ b ≤ j + 1 →
     rd board1 a b = rd board2 a b) →
  rd (board_compute board1 temp1).1 i j = rd (board_compute board2 temp2).1 i j.
Proof.
  intros Hb1 Ht1 Hb2 Ht2 Hin Hnear.
  rewrite !board_compute_closed by done. cbn [fst snd].
  rewrite !rd_grid_of by done. unfold next_cell.
  rewrite !count_around_sum by done.
  rewrite (sum_cells_agree board1 board2).
  - rewrite (Hnear i j) by (done || lia). done.
  - unfold neighbours. apply Forall_forall. intros q Hq.
    apply list_elem_of_filter in Hq as [Hq1 Hq2].
    pose proof (proj1 (Forall_forall _ _) (surrounding_near i j) q Hq2) as [??].
    unfold cell_at. by apply Hnear.
Qed.

Lemma next_generation_local_witness :
  rd (board_compute (board_of (block 3 3)) blank).1 3 3 =
  rd (board_compute (board_of (λ i j, block 3 3 i j || block 3 36 i j)) blank).1 3 3.
Proof.
  apply next_generation_local; try apply wf_grid_of; [grid_bounds|].
  intros a b Hin Ha Hb. rewrite !(shows_board_of _ a b Hin). f_equal.
  assert (block 3 36 a b = false) as ->; [|by rewrite orb_false_r].
  unfold block. split_comparisons; reflexivity.
Defined.

(** X4. The 2x2 block is a still life wherever it fits on the board, also
    along an edge and in a corner, where part of its border does not exist. *)
Theorem block_still_life_anywhere board temp r c :
  wf_grid board → wf_grid temp →
  0 ≤ r → r + 1 < kBoardHeight → 0 ≤ c → c + 1 < kBoardWidth →
  shows board (block r c) →
  (board_compute board temp).1 = board.
Proof.
  intros Hb Ht Hr1 Hr2 Hc1 Hc2 Hshows.
  rewrite (board_compute_pattern board temp (block r c));
    [|done|done|done|by apply confined_block].
  cbn [fst snd]. rewrite (board_of_ext _ (block r c)) by apply step_block.
  symmetry. by apply board_of_unique.
Qed.

Lemma block_still_life_anywhere_witness :
  (board_compute (board_of (block 28 0)) blank).1 = board_of (block 28 0).
Proof.
  apply (block_still_life_anywhere _ _ 28 0);
    try apply wf_grid_of; try apply shows_board_of;
    unfold kBoardHeight, kBoardWidth; lia.
Defined.

Lemma step_stub c i j : step_pattern (stub c) i j = dead i j.
Proof.
  unfold step_pattern, count_pattern, surrounding, stub, dead.
  cbn [fmap list_fmap foldr fst snd].
  split_comparisons; reflexivity.
Qed.

Lemma step_dead i j : step_pattern dead i j = dead i j.
Proof. reflexivity. Qed.

Lemma confined_dead : confined dead.
Proof. by intros i j _. Qed.

Lemma board_of_dead : board_of dead = blank.
Proof. reflexivity. Qed.

(** X5. No wrap-around at the top edge: a horizontal three-cell line on row 0
    leaves the two cells (0, c) and (1, c) after one generation, and nothing
    after two. *)
Theorem top_row_line_dies board temp c :
  wf_grid board → wf_grid temp →
  1 ≤ c - 1 → c + 1 ≤ kBoardWidth - 2 →
  shows board (horizontal 0 c) →
  let '(board1, temp1) := board_compute board temp in
  shows board1 (stub c) ∧ (board_compute board1 temp1).1 = blank.
Proof.
  intros Hb Ht Hc1 Hc2 Hshows.
  rewrite (board_compute_pattern board temp (horizontal 0 c));
    [|done|done|done|apply confined_horizontal; grid_bounds].
  assert (board_of (step_pattern (horizontal 0 c)) = board_of (stub c)) as ->.
  { apply grid_of_ext. intros i j Hin. rewrite step_horizontal. f_equal.
    unfold vertical, stub. split_comparisons; try reflexivity.
    exfalso. grid_bounds. }
  split; [apply shows_board_of|].
  rewrite (board_compute_pattern _ _ (stub c));
    [|apply wf_grid_of|apply wf_grid_of|apply shows_board_of|].
  - cbn [fst snd]. by rewrite (board_of_ext _ dead) by apply step_stub.
  - intros i j Hout. unfold stub. split_comparisons; try reflexivity.
    exfalso. apply Hout. grid_bounds.
Qed.

Lemma top_row_line_dies_witness :
  let '(board1, temp1) := board_compute (board_of (horizontal 0 5)) blank in
  shows board1 (stub 5) ∧ (board_compute board1 temp1).1 = blank.
Proof.
  refine (top_row_line_dies (board_of (horizontal 0 5)) blank 5
            (wf_grid_of _) (wf_grid_of _) _ _ (shows_board_of _));
    unfold kBoardWidth; lia.
Defined.

Lemma board_compute_blank temp :
  wf_grid temp → board_compute blank temp = (blank, blank).
Proof.
  intros Ht.
  rewrite (board_compute_pattern blank temp dead);
    [done|apply wf_grid_of|done|apply (shows_board_of dead)|apply confined_dead].
Qed.

(** X6. After [board_reset] a generation-advance by whichever function the
    container selects changes nothing: the empty board is a fixed point. *)
Theorem compute_after_reset rows cols game :
  wf_grid (board game) → wf_grid (temp game) →
  schedule kBoardHeight rows →
  (∀ i, 0 ≤ i < kBoardHeight → schedule kBoardWidth (cols i)) →
  compute_board rows cols (board_reset game) = board_reset game.
Proof.
  intros Hb Ht Hrows Hcols. rewrite board_reset_closed by done.
  unfold compute_board.
  assert (board (with_boards game blank blank) = blank) as -> by by destruct game.
  assert (temp (with_boards game blank blank) = blank) as -> by by destruct game.
  rewrite board_compute_openmp_closed by (done || apply wf_grid_of).
  rewrite <- (board_compute_closed blank blank) by apply wf_grid_of.
  rewrite board_compute_blank by apply wf_grid_of.
  by destruct game as [d [] b t q p u].
Qed.

Lemma compute_after_reset_witness :
  let game := mkGame Draw_board_openmp Board_compute_openmp
                (board_of (block 3 3)) (board_of corner) 0 1 0 in
  compute_board (reverse (seqZ 0 kBoardHeight)) (λ _, reverse (seqZ 0 kBoardWidth))
    (board_reset game) = board_reset game.
Proof.
  intros game.
  apply compute_after_reset; try apply wf_grid_of.
  - apply reverse_Permutation.
  - intros; apply reverse_Permutation.
Defined.

(** X7. Whatever command line [main] accepts, the generation-advance it
    selects turns [board] into the same next generation: the options differ
    in how the work is done and drawn, not in the board they produce. *)
Theorem every_option_same_generation argv rows cols game started :
  wf_grid (board game) → wf_grid (temp game) →
  schedule kBoardHeight rows →
  (∀ i, 0 ≤ i < kBoardHeight → schedule kBoardWidth (cols i)) →
  main argv game = Start started →
  board (compute_board rows cols started) =
    (board_compute (board game) (temp game)).1 ∧
  temp (compute_board rows cols started) =
    (board_compute (board game) (temp game)).2.
Proof.
  intros Hb Ht Hrows Hcols Hmain.
  assert (board started = board game ∧ temp started = temp game) as [Hb' Ht'].
  { unfold main in Hmain. repeat case_match; simplify_eq; by destruct game. }
  unfold compute_board. rewrite Hb', Ht'.
  rewrite board_compute_openmp_closed, board_compute_closed by done.
  by destruct (computeBoardFunc started), started.
Qed.

Lemma every_option_same_generation_witness :
  let game := mkGame Draw_board Board_compute
                (board_of (horizontal 3 4)) blank 7 7 7 in
  board (compute_board (seqZ 0 kBoardHeight) (λ _, seqZ 0 kBoardWidth)
           (set_funcs game Board_compute_openmp Draw_board_openmp)) =
  (board_compute (board game) (temp game)).1.
Proof.
  intros game.
  refine (proj1 (every_option_same_generation ["gamelive"; "--openmp"]
    (seqZ 0 kBoardHeight) (λ _, seqZ 0 kBoardWidth) game _
    (wf_grid_of _) (wf_grid_of _) _ _ eq_refl)).
  - apply schedule_seqZ.
  - intros; apply schedule_seqZ.
Defined.

Ltac sift_all_neighbours :=
  repeat first
    [ rewrite filter_cons_True by grid_bounds
    | rewrite filter_cons_False by grid_bounds ];
  rewrite ?filter_nil.

Lemma sum_neighbours_flip_h board i j :
  in_grid i j →
  sum_cells (flip_h board) (neighbours i j) =
  sum_cells board (neighbours i (kMaxWidth - j)).
Proof.
  intros Hin. unfold neighbours, surrounding.
  destruct (decide (i = 0)), (decide (i = kMaxHeight)),
    (decide (j = 0)), (decide (j = kMaxWidth));
    try (exfalso; grid_bounds); sift_all_neighbours;
    unfold sum_cells, cell_at, flip_h; cbn [fmap list_fmap foldr fst snd];
    rewrite ?rd_grid_of by grid_bounds;
    rewrite ?Z.sub_sub_distr, ?Z.sub_add_distr; lia.
Qed.

Lemma sum_neighbours_flip_v board i j :
  in_grid i j →
  sum_cells (flip_v board) (neighbours i j) =
  sum_cells board (neighbours (kMaxHeight - i) j).
Proof.
  intros Hin. unfold neighbours, surrounding.
  destruct (decide (i = 0)), (decide (i = kMaxHeight)),
    (decide (j = 0)), (decide (j = kMaxWidth));
    try (exfalso; grid_bounds); sift_all_neighbours;
    unfold sum_cells, cell_at, flip_v; cbn [fmap list_fmap foldr fst snd];
    rewrite ?rd_grid_of by grid_bounds;
    rewrite ?Z.sub_sub_distr, ?Z.sub_add_distr; lia.
Qed.

(** X8. The guards on the left and on the right edge are symmetric: advancing
    the mirror image of a board gives the mirror image of the advanced
    board. *)
Theorem flip_h_commutes board temp temp' :
  wf_grid board → wf_grid temp → wf_grid temp' →
  (board_compute (flip_h board) temp').1 = flip_h (board_compute board temp).1.
Proof.
  intros Hb Ht Ht'.
  rewrite !board_compute_closed by (done || apply wf_grid_of). cbn [fst snd].
  apply grid_of_ext. intros i j Hin.
  rewrite rd_grid_of by grid_bounds. unfold next_cell.
  rewrite !count_around_sum by grid_bounds.
  rewrite sum_neighbours_flip_h by done.
  unfold flip_h at 1 2. by rewrite !rd_grid_of by done.
Qed.

Lemma flip_h_commutes_witness :
  (board_compute (flip_h (board_of corner)) blank).1 =
  flip_h (board_compute (board_of corner) blank).1.
Proof.
  exact (flip_h_commutes (board_of corner) blank blank
           (wf_grid_of _) (wf_grid_of _) (wf_grid_of _)).
Defined.

(** X9. The guards on the top and on the bottom edge are symmetric: advancing
    a board turned upside down gives the advanced board turned upside down. *)
Theorem flip_v_commutes board temp temp' :
  wf_grid board → wf_grid temp → wf_grid temp' →
  (board_compute (flip_v board) temp').1 = flip_v (board_compute board temp).1.
Proof.
  intros Hb Ht Ht'.
  rewrite !board_compute_closed by (done || apply wf_grid_of). cbn [fst snd].
  apply grid_of_ext. intros i j Hin.
  rewrite rd_grid_of by grid_bounds. unfold next_cell.
  rewrite !count_around_sum by grid_bounds.
  rewrite sum_neighbours_flip_v by done.
  unfold flip_v at 1 2. by rewrite !rd_grid_of by done.
Qed.

Lemma flip_v_commutes_witness :
  (board_compute (flip_v (board_of corner)) blank).1 =
  flip_v (board_compute (board_of corner) blank).1.
Proof.
  exact (flip_v_commutes (board_of corner) blank blank
           (wf_grid_of _) (wf_grid_of _) (wf_grid_of _)).
Defined.

(** ** Properties of the controller *)

Lemma board_reset_flags game :
  quit (board_reset game) = quit game ∧
  playing (board_reset game) = playing game ∧
  useOpenGL (board_reset game) = useOpenGL game ∧
  computeBoardFunc (board_reset game) = computeBoardFunc game ∧
  drawBoardFunc (board_reset game) = drawBoardFunc game.
Proof.
  unfold board_reset, for_loop at 1. rewrite reset_rows. by destruct game.
Qed.

Lemma compute_board_flags rows cols game :
  quit (compute_board rows cols game) = quit game ∧
  playing (compute_board rows cols game) = playing game.
Proof.
  unfold compute_board.
  destruct (match computeBoardFunc game with
            | Board_compute => _ | Board_compute_openmp => _ end) as [b t].
  by destruct game.
Qed.

(** X10. [initialize_game] clears [useOpenGL] again: the container that
    [main] hands to [do_main_loop] for [--opengl] is the one it hands over
    without any option. *)
Theorem opengl_option_is_cleared prog game start stop reset board0 temp0 :
  ∃ with_option without,
    main [prog; "--opengl"] game = Start with_option ∧
    main [prog] game = Start without ∧
    useOpenGL with_option = Yes ∧
    initialize_game with_option start stop reset board0 temp0 =
    initialize_game without start stop reset board0 temp0.
Proof.
  eexists _, _. split; [reflexivity|]. split; [reflexivity|].
  split; [reflexivity|]. by destruct game.
Qed.

Lemma handle_event_quit evt st :
  quit (container (ui (handle_event evt st))) =
  match evt with Quit => 1 | _ => 0 end.
Proof.
  unfold handle_event.
  destruct st as [[c s p r] m]; cbn [ui container startBtn stopBtn resetBtn mouseButtonDown].
  destruct evt; repeat case_match; cbn [with_container ui container];
    rewrite ?(proj1 (board_reset_flags _)); by destruct c.
Qed.

Lemma frame_quit tk st :
  quit (container (ui (frame tk st))) =
  quit (container (ui (foldl (λ st evt, handle_event evt st) st (tick_events tk)))).
Proof.
  unfold frame. case_match; [|done].
  unfold with_container; cbn [ui container].
  apply compute_board_flags.
Qed.

(** X11. Every polled event overwrites [game.quit]: after a turn of the loop
    that polled events, [quit] is set exactly when the last of them was the
    quit event, so that a quit event followed by another event in the same
    turn is forgotten. *)
Theorem quit_follows_last_event tk st evts evt :
  tick_events tk = evts ++ [evt] →
  quit (container (ui (frame tk st))) = match evt with Quit => 1 | _ => 0 end.
Proof.
  intros Hevts. rewrite frame_quit, Hevts, foldl_snoc.
  apply handle_event_quit.
Qed.

Lemma quit_follows_last_event_witness :
  let st := mkLoop (mkUi stack_garbage (mkButton [] (Rect.mk 0 0 0 0) 0)
                      (mkButton [] (Rect.mk 0 0 0 0) 0)
                      (mkButton [] (Rect.mk 0 0 0 0) 0)) 0 in
  let tk := mkTick [Quit; MouseMotion 3 4] [] (λ _, []) in
  quit (container (ui (frame tk st))) = 0.
Proof.
  intros st tk.
  exact (quit_follows_last_event tk st [Quit] (MouseMotion 3 4) eq_refl).
Defined.

Lemma handle_event_flags evt st :
  flags_mirror_playing (ui st) → flags_mirror_playing (ui (handle_event evt st)).
Proof.
  unfold flags_mirror_playing, handle_event.
  destruct st as [[c s p r] m];
    cbn [ui container startBtn stopBtn resetBtn mouseButtonDown].
  intros (Hp & Hs & Hr & Ht).
  assert (playing (set_quit c match evt with Quit => 1 | _ => 0 end) = playing c)
    as Hq by by destruct c.
  rewrite Hq.
  destruct (Z.eqb_spec (playing c) 0) as [H0|H0].
  - destruct evt as [|[] x y|l|x y|];
      repeat case_match;
      cbn [with_container ui container startBtn stopBtn resetBtn
           button_set_active active];
      rewrite ?(proj1 (proj2 (board_reset_flags _)));
      try (destruct c; cbn in *; unfold Yes; lia).
  - destruct evt as [|l x y|l|x y|];
      cbn [with_container ui container startBtn stopBtn resetBtn
           button_set_active active];
      try (destruct c; cbn in *; lia).
    destruct (button_is_clicked p x y =? 0); destruct c; cbn; lia.
Qed.

Lemma frame_flags tk st :
  flags_mirror_playing (ui st) → flags_mirror_playing (ui (frame tk st)).
Proof.
  intros Hst. unfold frame.
  assert (flags_mirror_playing
            (ui (foldl (λ st evt, handle_event evt st) st (tick_events tk)))) as H.
  { generalize (tick_events tk). intros evts. revert st Hst.
    induction evts as [|evt evts IH]; intros st Hst; [done|].
    cbn [foldl]. by apply IH, handle_event_flags. }
  case_match; [|done].
  unfold flags_mirror_playing, with_container in *.
  cbn [ui container startBtn stopBtn resetBtn].
  by rewrite (proj2 (compute_board_flags _ _ _)).
Qed.

Lemma run_loop_flags ticks st :
  flags_mirror_playing (ui st) → flags_mirror_playing (ui (run_loop ticks st)).
Proof.
  revert st. induction ticks as [|tk ticks IH]; intros st Hst; cbn [run_loop].
  - by case_match.
  - case_match; [done|]. by apply IH, frame_flags.
Qed.

Lemma initialize_game_flags game start stop reset board0 temp0 :
  flags_mirror_playing (initialize_game game start stop reset board0 temp0).
Proof.
  unfold flags_mirror_playing, initialize_game.
  cbn [ui container startBtn stopBtn resetBtn button_set_active active].
  rewrite (proj1 (proj2 (board_reset_flags _))).
  destruct game; cbn. unfold No. lia.
Qed.

(** X12. From start-up on and through every event and turn of the main loop,
    [playing] is 0 or 1 and the buttons show it: Start and Reset are active
    exactly while the simulation is paused, Stop exactly while it runs. *)
Theorem flags_follow_playing ticks game start stop reset board0 temp0 :
  flags_mirror_playing
    (ui (do_main_loop ticks (initialize_game game start stop reset board0 temp0))).
Proof.
  unfold do_main_loop.
  apply run_loop_flags. cbn [ui].
  apply initialize_game_flags.
Qed.

(** X13. While the simulation is running no event touches the boards: cells
    can be painted and the boards cleared only while it is paused. *)
Theorem running_events_keep_boards evt st :
  playing (container (ui st)) ≠ 0 →
  board (container (ui (handle_event evt st))) = board (container (ui st)) ∧
  temp (container (ui (handle_event evt st))) = temp (container (ui st)).
Proof.
  intros Hrun. unfold handle_event.
  destruct st as [[c s p r] m];
    cbn [ui container startBtn stopBtn resetBtn mouseButtonDown] in *.
  assert ((playing (set_quit c match evt with Quit => 1 | _ => 0 end) =? 0) = false)
    as -> by (destruct c; cbn in *; lia).
  destruct evt; by destruct c.
Qed.

Lemma running_events_keep_boards_witness :
  let btn := mkButton [Rect.mk 0 0 50 30; Rect.mk 0 0 50 30] (Rect.mk 5 5 0 0) 1 in
  let c := mkGame Draw_board Board_compute (board_of (block 3 3)) blank 0 1 0 in
  board (container (ui (handle_event (MouseButtonDown true 100 100)
                          (mkLoop (mkUi c btn btn btn) 1)))) =
  board_of (block 3 3).
Proof.
  intros btn c.
  refine (proj1 (running_events_keep_boards (MouseButtonDown true 100 100)
                   (mkLoop (mkUi c btn btn btn) 1) _)).
  discriminate.
Defined.

Lemma in_window_in_grid x y :
  0 ≤ x < kBoardWidth * kTileSize → 0 ≤ y < kBoardHeight * kTileSize →
  in_grid (y / kTileSize) (x / kTileSize).
Proof.
  unfold in_grid, kBoardWidth, kBoardHeight, kTileSize. intros Hx Hy.
  split; split;
    first [apply Z.div_pos; lia | apply Z.div_lt_upper_bound; lia].
Qed.

(** X14. A left click while paused, inside the window and on neither the
    Start nor the Reset button, paints: the index computed from the pointer
    is inside the board, the cell there becomes alive, every other cell and
    the whole of [temp] stay as they are, and dragging is switched on. *)
Theorem click_paints_one_cell st x y :
  let c := container (ui st) in
  let st' := handle_event (MouseButtonDown true x y) st in
  playing c = 0 → wf_grid (board c) →
  0 ≤ x < kBoardWidth * kTileSize → 0 ≤ y < kBoardHeight * kTileSize →
  button_is_clicked (startBtn (ui st)) x y = 0 →
  button_is_clicked (resetBtn (ui st)) x y = 0 →
  in_grid (y / kTileSize) (x / kTileSize) ∧
  (∀ i j, in_grid i j →
     rd (board (container (ui st'))) i j =
     if decide (i = y / kTileSize ∧ j = x / kTileSize) then 1
     else rd (board c) i j) ∧
  temp (container (ui st')) = temp c ∧
  mouseButtonDown st' = Yes.
Proof.
  intros c st' Hpaused Hwf Hx Hy Hstart Hreset.
  pose proof (in_window_in_grid x y Hx Hy) as Hin.
  split; [done|]. subst c st'. unfold handle_event.
  destruct st as [[c s p r] m];
    cbn [ui container startBtn stopBtn resetBtn mouseButtonDown] in *.
  assert ((playing (set_quit c 0) =? 0) = true) as ->
    by (destruct c; cbn in *; lia).
  rewrite Hstart, Hreset. cbn [Z.eqb negb ui container mouseButtonDown].
  split; [|by destruct c].
  intros i j [Hi Hj].
  assert (board (set_board (set_quit c 0)
            (wr (board (set_quit c 0)) (y / kTileSize) (x / kTileSize) 1)) =
          wr (board c) (y / kTileSize) (x / kTileSize) 1) as -> by by destruct c.
  by apply rd_wr; [| |lia..].
Qed.

Lemma click_paints_one_cell_witness :
  let btn := mkButton [Rect.mk 0 0 50 30; Rect.mk 0 0 50 30] (Rect.mk 5 5 0 0) 1 in
  let c := mkGame Draw_board Board_compute blank blank 0 0 0 in
  let st' := handle_event (MouseButtonDown true 130 250) (mkLoop (mkUi c btn btn btn) 0) in
  in_grid 12 6 ∧ rd (board (container (ui st'))) 12 6 = 1.
Proof.
  intros btn c st'.
  pose proof (click_paints_one_cell (mkLoop (mkUi c btn btn btn) 0) 130 250
    eq_refl (wf_grid_of _)) as H.
  destruct H as (Hin & Hcells & _); try reflexivity;
    try (unfold kBoardWidth, kBoardHeight, kTileSize; lia).
  split; [exact Hin|]. exact (Hcells 12 6 Hin).
Defined.

(** X15. Dragging follows the last button release, whichever button it was:
    while paused, after a release of the left button a mouse motion paints
    nothing, and after a release of any other button it paints the cell
    under the pointer. *)
Theorem release_decides_dragging st is_left x y :
  let c := container (ui st) in
  let st' := handle_event (MouseMotion x y) (handle_event (MouseButtonUp is_left) st) in
  playing c = 0 → wf_grid (board c) →
  0 ≤ x < kBoardWidth * kTileSize → 0 ≤ y < kBoardHeight * kTileSize →
  if is_left then board (container (ui st')) = board c
  else rd (board (container (ui st'))) (y / kTileSize) (x / kTileSize) = 1.
Proof.
  intros c st' Hpaused Hwf Hx Hy.
  pose proof (in_window_in_grid x y Hx Hy) as Hin.
  subst c st'. unfold handle_event.
  destruct st as [[c s p r] m];
    cbn [ui container startBtn stopBtn resetBtn mouseButtonDown] in *.
  assert ((playing (set_quit c 0) =? 0) = true) as ->
    by (destruct c; cbn in *; lia).
  cbn [ui container startBtn stopBtn resetBtn mouseButtonDown].
  assert ((playing (set_quit (set_quit c 0) 0) =? 0) = true) as ->
    by (destruct c; cbn in *; lia).
  destruct is_left; cbn [Z.eqb negb with_container ui container].
  - by destruct c.
  - assert (board (set_board (set_quit (set_quit c 0) 0)
              (wr (board (set_quit (set_quit c 0) 0))
                  (y / kTileSize) (x / kTileSize) 1)) =
            wr (board c) (y / kTileSize) (x / kTileSize) 1) as -> by by destruct c.
    by apply rd_wr_eq.
Qed.

Lemma release_decides_dragging_witness :
  let btn := mkButton [Rect.mk 0 0 50 30; Rect.mk 0 0 50 30] (Rect.mk 5 5 0 0) 1 in
  let c := mkGame Draw_board Board_compute blank blank 0 0 0 in
  let st' := handle_event (MouseMotion 130 250)
               (handle_event (MouseButtonUp false) (mkLoop (mkUi c btn btn btn) 0)) in
  rd (board (container (ui st'))) 12 6 = 1.
Proof.
  intros btn c st'.
  refine (release_decides_dragging (mkLoop (mkUi c btn btn btn) 0) false 130 250
            eq_refl (wf_grid_of _) _ _);
    unfold kBoardWidth, kBoardHeight, kTileSize; lia.
Defined.

Lemma same_layout_refl g : same_layout g g.
Proof. by repeat split. Qed.

Lemma same_layout_trans g1 g2 g3 :
  same_layout g1 g2 → same_layout g2 g3 → same_layout g1 g3.
Proof.
  unfold same_layout, same_button.
  intros (? & ? & ?) (? & ? & ?). destruct_and!. repeat split; congruence.
Qed.

Lemma handle_event_layout evt st : same_layout (ui st) (ui (handle_event evt st)).
Proof.
  unfold handle_event. destruct st as [[c s p r] m];
    cbn [ui container startBtn stopBtn resetBtn mouseButtonDown].
  destruct evt; repeat case_match; by repeat split.
Qed.

Lemma frame_layout tk st : same_layout (ui st) (ui (frame tk st)).
Proof.
  unfold frame.
  assert (same_layout (ui st)
            (ui (foldl (λ st evt, handle_event evt st) st (tick_events tk)))) as H.
  { generalize (tick_events tk). intros evts. revert st.
    induction evts as [|evt evts IH]; intros st; [apply same_layout_refl|].
    cbn [foldl]. eapply same_layout_trans; [apply (handle_event_layout evt)|apply IH]. }
  by case_match.
Qed.

Lemma run_loop_layout ticks st : same_layout (ui st) (ui (run_loop ticks st)).
Proof.
  revert st. induction ticks as [|tk ticks IH]; intros st; cbn [run_loop].
  - case_match; apply same_layout_refl.
  - case_match; [apply same_layout_refl|].
    eapply same_layout_trans; [apply (frame_layout tk)|apply IH].
Qed.

Lemma to_Sint16_small v : - 2 ^ 15 ≤ v < 2 ^ 15 → to_Sint16 v = v.
Proof. intros Hv. unfold to_Sint16. rewrite Z.mod_small; lia. Qed.

Lemma clicked_inside btn x y :
  button_is_clicked btn x y = 0 ∨
  (button_is_clicked btn x y = 1 ∧
   Rect.x (position btn) < x <
   Rect.x (position btn) + Rect.w (clip_rect btn (active btn))).
Proof.
  unfold button_is_clicked.
  destruct (Z.ltb_spec (Rect.x (position btn)) x); [|by left].
  destruct (Z.ltb_spec x
    (Rect.x (position btn) + Rect.w (clip_rect btn (active btn)))); [|by left].
  destruct (_ <? _); [|by left]. destruct (_ <? _); [|by left].
  right. split; [done|lia].
Qed.

Lemma same_surf_width b b' :
  surf b' = surf b → same_width b → (active b' = 0 ∨ active b' = 1) →
  Rect.w (clip_rect b' (active b')) = Rect.w (clip_rect b INACTIVE).
Proof.
  intros Hsurf Hw Hact. unfold same_width, clip_rect in *. rewrite Hsurf.
  destruct Hact as [-> | ->]; [done|]. exact Hw.
Qed.

(** X16. The buttons laid out by [initialize_game] never overlap: when the
    two surfaces of Start and of Stop are equally wide and the three buttons
    fit into a [Sint16] coordinate, at no moment of the run does a point
    click more than one button. *)
Theorem buttons_never_overlap ticks game start stop reset board0 temp0 x y :
  let ws := Rect.w (clip_rect start INACTIVE) in
  let wt := Rect.w (clip_rect stop INACTIVE) in
  let g := ui (do_main_loop ticks
                 (initialize_game game start stop reset board0 temp0)) in
  same_width start → same_width stop →
  0 ≤ ws → 0 ≤ wt → ws + wt + 15 < 2 ^ 15 →
  button_is_clicked (startBtn g) x y + button_is_clicked (stopBtn g) x y +
  button_is_clicked (resetBtn g) x y ≤ 1.
Proof.
  intros ws wt g Hws Hwt Hs Ht Hfit.
  pose proof (run_loop_flags ticks
    (mkLoop (initialize_game game start stop reset board0 temp0) 0)
    (initialize_game_flags game start stop reset board0 temp0))
    as (Hp & Ha1 & Ha3 & Ha2).
  fold (do_main_loop ticks (initialize_game game start stop reset board0 temp0))
    in Hp, Ha1, Ha2, Ha3.
  pose proof (run_loop_layout ticks
    (mkLoop (initialize_game game start stop reset board0 temp0) 0))
    as ([Hs1 Hp1] & [Hs2 Hp2] & [Hs3 Hp3]).
  fold (do_main_loop ticks (initialize_game game start stop reset board0 temp0))
    in Hs1, Hp1, Hs2, Hp2, Hs3, Hp3.
  fold g in Hp, Ha1, Ha2, Ha3, Hs1, Hp1, Hs2, Hp2, Hs3, Hp3.
  cbn [ui initialize_game startBtn stopBtn resetBtn button_set_active
       button_set_position position surf] in Hs1, Hp1, Hs2, Hp2, Hs3, Hp3.
  assert (Rect.w (clip_rect (startBtn g) (active (startBtn g))) = ws) as Hw1.
  { apply (same_surf_width start); [done| done | lia]. }
  assert (Rect.w (clip_rect (stopBtn g) (active (stopBtn g))) = wt) as Hw2.
  { apply (same_surf_width stop); [done| done | lia]. }
  assert (Rect.x (position (startBtn g)) = 5) as Hx1 by by rewrite Hp1.
  assert (Rect.x (position (stopBtn g)) = ws + 10) as Hx2.
  { rewrite Hp2. cbn [Rect.x]. apply to_Sint16_small. fold ws. lia. }
  assert (Rect.x (position (resetBtn g)) = ws + wt + 15) as Hx3.
  { rewrite Hp3. cbn [Rect.x]. apply to_Sint16_small. fold ws wt. lia. }
  destruct (clicked_inside (startBtn g) x y) as [->|[-> H1]],
    (clicked_inside (stopBtn g) x y) as [->|[-> H2]],
    (clicked_inside (resetBtn g) x y) as [->|[-> H3]]; lia.
Qed.

Lemma buttons_never_overlap_witness :
  let btn := mkButton [Rect.mk 0 0 50 30; Rect.mk 0 0 50 30] (Rect.mk 0 0 0 0) 0 in
  let g := ui (do_main_loop [mkTick [MouseButtonDown true 10 10] [] (λ _, [])]
                 (initialize_game stack_garbage btn btn btn blank blank)) in
  button_is_clicked (startBtn g) 62 10 + button_is_clicked (stopBtn g) 62 10 +
  button_is_clicked (resetBtn g) 62 10 ≤ 1.
Proof.
  intros btn g.
  refine (buttons_never_overlap
            [mkTick [MouseButtonDown true 10 10] [] (λ _, [])]
            stack_garbage btn btn btn blank blank 62 10 eq_refl eq_refl _ _ _);
    cbv -[Z.le Z.lt]; lia.
Defined.

Lemma compute_board_closed rows cols game :
  wf_grid (board game) → wf_grid (temp game) →
  schedule kBoardHeight rows →
  (∀ i, 0 ≤ i < kBoardHeight → schedule kBoardWidth (cols i)) →
  compute_board rows cols game =
  with_boards game (grid_of (next_cell (board game)))
                   (grid_of (next_cell (board game))).
Proof.
  intros Hb Ht Hrows Hcols. unfold compute_board.
  rewrite board_compute_openmp_closed, board_compute_closed by done.
  by destruct (computeBoardFunc game).
Qed.

Lemma handle_quiet_event evt st :
  playing (container (ui st)) ≠ 0 → is_press evt = false →
  ∃ q, handle_event evt st = with_container st (set_quit (container (ui st)) q).
Proof.
  intros Hrun Hquiet. unfold handle_event.
  assert ((playing (set_quit (container (ui st))
             match evt with Quit => 1 | _ => 0 end) =? 0) = false) as ->
    by (destruct (container (ui st)); cbn in *; lia).
  destruct evt; try discriminate; by eexists.
Qed.

Lemma handle_quiet_events evts st :
  playing (container (ui st)) ≠ 0 → Forall (λ evt, is_press evt = false) evts →
  ∃ q, foldl (λ st evt, handle_event evt st) st evts =
       with_container st (set_quit (container (ui st)) q).
Proof.
  intros Hrun Hquiet. revert st Hrun.
  induction Hquiet as [|evt evts Hevt Hevts IH]; intros st Hrun.
  - exists (quit (container (ui st))). by destruct st as [[[] ???] ?].
  - cbn [foldl]. destruct (handle_quiet_event evt st Hrun Hevt) as [q ->].
    destruct (IH (with_container st (set_quit (container (ui st)) q))) as [q' ->].
    { by destruct st as [[[] ???] ?]. }
    exists q'. by destruct st as [[[] ???] ?].
Qed.

(** X17. A turn of the main loop that starts with the simulation running and
    polls no mouse press advances the boards by exactly one generation, the
    same one for either compute function, and keeps running. *)
Theorem running_turn_advances tk st :
  let c := container (ui st) in
  playing c = Yes →
  Forall (λ evt, is_press evt = false) (tick_events tk) →
  wf_grid (board c) → wf_grid (temp c) →
  schedule kBoardHeight (tick_rows tk) →
  (∀ i, 0 ≤ i < kBoardHeight → schedule kBoardWidth (tick_cols tk i)) →
  board (container (ui (frame tk st))) = (board_compute (board c) (temp c)).1 ∧
  temp (container (ui (frame tk st))) = (board_compute (board c) (temp c)).2 ∧
  playing (container (ui (frame tk st))) = Yes.
Proof.
  intros c Hrun Hquiet Hb Ht Hrows Hcols. subst c. unfold frame.
  destruct (handle_quiet_events (tick_events tk) st) as [q ->];
    [unfold Yes in Hrun; lia|done|].
  destruct st as [[c s p r] m]; cbn [ui container with_container] in *.
  assert (playing (set_quit c q) = Yes) as Hrun' by by destruct c.
  rewrite Hrun', Z.eqb_refl. cbn [ui container].
  rewrite compute_board_closed, board_compute_closed
    by (done || by destruct c).
  by destruct c.
Qed.

Lemma running_turn_advances_witness :
  let btn := mkButton [Rect.mk 0 0 50 30; Rect.mk 0 0 50 30] (Rect.mk 5 5 0 0) 1 in
  let c := mkGame Draw_board_openmp Board_compute_openmp
             (board_of (horizontal 3 4)) blank 0 1 0 in
  let tk := mkTick [MouseMotion 3 4; OtherEvent]
              (reverse (seqZ 0 kBoardHeight)) (λ _, reverse (seqZ 0 kBoardWidth)) in
  board (container (ui (frame tk (mkLoop (mkUi c btn btn btn) 0)))) =
  (board_compute (board_of (horizontal 3 4)) blank).1.
Proof.
  intros btn c tk.
  refine (proj1 (running_turn_advances tk (mkLoop (mkUi c btn btn btn) 0)
            eq_refl _ (wf_grid_of _) (wf_grid_of _) _ _)).
  - by repeat constructor.
  - apply reverse_Permutation.
  - intros; apply reverse_Permutation.
Defined.

Lemma binary_grid_of_next_cell board : binary_grid (grid_of (next_cell board)).
Proof.
  intros i j Hin. rewrite rd_grid_of by done.
  unfold next_cell. repeat case_match; auto.
Qed.

Lemma binary_blank : binary_grid blank.
Proof. intros i j Hin. unfold blank. rewrite rd_grid_of by done. auto. Qed.

Lemma binary_wr b i j :
  wf_grid b → binary_grid b → in_grid i j → binary_grid (wr b i j 1).
Proof.
  intros Hwf Hbin Hin i' j' [Hi' Hj']. rewrite rd_wr by (done || lia).
  case_decide; [auto|]. by apply Hbin.
Qed.

Lemma boards_ok_set_quit c q : boards_ok c → boards_ok (set_quit c q).
Proof. by destruct c. Qed.

Lemma boards_ok_set_playing c v : boards_ok c → boards_ok (set_playing c v).
Proof. by destruct c. Qed.

Lemma boards_ok_reset c : boards_ok c → boards_ok (board_reset c).
Proof.
  intros (Hb & Ht & _). rewrite board_reset_closed by done.
  destruct c; unfold boards_ok; cbn.
  split_and!; first [apply (wf_grid_of (λ _ _, 0)) | apply binary_blank].
Qed.

Lemma boards_ok_paint c x y :
  boards_ok c →
  0 ≤ x < kBoardWidth * kTileSize → 0 ≤ y < kBoardHeight * kTileSize →
  boards_ok (set_board c (wr (board c) (y / kTileSize) (x / kTileSize) 1)).
Proof.
  intros (Hb & Ht & Hbb & Hbt) Hx Hy.
  pose proof (in_window_in_grid x y Hx Hy) as Hin.
  destruct c; unfold boards_ok in *; cbn in *.
  split_and!; [by apply wf_grid_wr|done|by apply binary_wr|done].
Qed.

Lemma handle_event_boards_ok evt st :
  boards_ok (container (ui st)) → in_window evt →
  boards_ok (container (ui (handle_event evt st))).
Proof.
  intros Hok Hwin. unfold handle_event.
  destruct st as [[c s p r] m];
    cbn [ui container startBtn stopBtn resetBtn mouseButtonDown] in *.
  set (c' := set_quit c match evt with Quit => 1 | _ => 0 end).
  assert (boards_ok c') as Hok' by by apply boards_ok_set_quit.
  clearbody c'.
  destruct evt; cbn [in_window] in Hwin; repeat case_match;
    cbn [with_container ui container];
    auto using boards_ok_set_playing, boards_ok_reset;
    apply boards_ok_paint; tauto.
Qed.

Lemma compute_board_boards_ok rows cols c :
  boards_ok c →
  schedule kBoardHeight rows →
  (∀ i, 0 ≤ i < kBoardHeight → schedule kBoardWidth (cols i)) →
  boards_ok (compute_board rows cols c).
Proof.
  intros (Hb & Ht & _) Hrows Hcols. rewrite compute_board_closed by done.
  destruct c; unfold boards_ok; cbn.
  split_and!; first [apply wf_grid_of | apply binary_grid_of_next_cell].
Qed.

Lemma frame_boards_ok tk st :
  boards_ok (container (ui st)) → tick_ok tk →
  boards_ok (container (ui (frame tk st))).
Proof.
  intros Hok (Hevts & Hrows & Hcols). unfold frame.
  assert (boards_ok (container (ui
            (foldl (λ st evt, handle_event evt st) st (tick_events tk))))) as H.
  { revert st Hok. induction Hevts as [|evt evts Hevt Hevts IH]; intros st Hok;
      [done|].
    cbn [foldl]. by apply IH, handle_event_boards_ok. }
  case_match; [|done]. cbn [with_container ui container].
  by apply compute_board_boards_ok.
Qed.

Lemma run_loop_boards_ok ticks st :
  boards_ok (container (ui st)) → Forall tick_ok ticks →
  boards_ok (container (ui (run_loop ticks st))).
Proof.
  intros Hok Hticks. revert st Hok.
  induction Hticks as [|tk ticks Htk Hticks IH]; intros st Hok; cbn [run_loop].
  - by case_match.
  - case_match; [done|]. by apply IH, frame_boards_ok.
Qed.

(** X18. From start-up on, whatever the freshly allocated boards held and
    whatever the user does inside the window, both boards keep the
    allocated shape and every cell of both holds 0 or 1. *)
Theorem controller_keeps_boards ticks game start stop reset board0 temp0 :
  wf_grid board0 → wf_grid temp0 → Forall tick_ok ticks →
  boards_ok (container (ui (do_main_loop ticks
    (initialize_game game start stop reset board0 temp0)))).
Proof.
  intros Hb Ht Hticks. apply run_loop_boards_ok; [|done].
  unfold initialize_game. cbn [ui container].
  rewrite board_reset_closed by by destruct game.
  destruct game; unfold boards_ok; cbn.
  split_and!; first [apply (wf_grid_of (λ _ _, 0)) | apply binary_blank].
Qed.

Lemma controller_keeps_boards_witness :
  let btn := mkButton [Rect.mk 0 0 50 30; Rect.mk 0 0 50 30] (Rect.mk 0 0 0 0) 0 in
  let ticks :=
    [ mkTick [MouseButtonDown true 130 250; MouseMotion 150 250]
        (seqZ 0 kBoardHeight) (λ _, seqZ 0 kBoardWidth);
      mkTick [MouseButtonUp true; MouseButtonDown true 10 10]
        (reverse (seqZ 0 kBoardHeight)) (λ _, reverse (seqZ 0 kBoardWidth)) ] in
  boards_ok (container (ui (do_main_loop ticks
    (initialize_game stack_garbage btn btn btn
       (grid_of (λ i j, 5 * i - j)) (grid_of (λ i j, i * j)))))).
Proof.
  intros btn ticks.
  apply controller_keeps_boards; try apply wf_grid_of.
  assert (∀ x y, 0 ≤ x < 800 → 0 ≤ y < 600 →
            0 ≤ x < kBoardWidth * kTileSize ∧ 0 ≤ y < kBoardHeight * kTileSize)
    as Hwin by (unfold kBoardWidth, kBoardHeight, kTileSize; lia).
  repeat apply Forall_cons_2; try apply Forall_nil_2; repeat split;
    cbn [tick_events tick_rows tick_cols];
    repeat apply Forall_cons_2; try apply Forall_nil_2;
    cbn [in_window];
    first [ exact I | apply Hwin; lia | apply schedule_seqZ
          | apply reverse_Permutation
          | intros; apply schedule_seqZ | intros; apply reverse_Permutation ].
Defined.

Lemma foldl_append {A B} (f : B → list A) (l : list B) (out : list A) :
  foldl (λ out j, out ++ f j) out l = out ++ (l ≫= f).
Proof.
  revert out. induction l as [|j l IH]; intros out.
  - by rewrite app_nil_r.
  - cbn [foldl]. by rewrite IH, bind_cons, app_assoc.
Qed.

Lemma draw_board_closed game :
  draw_board game =
  seqZ 0 kBoardHeight ≫= λ i, seqZ 0 kBoardWidth ≫= cell_square game i.
Proof.
  unfold draw_board, for_loop.
  rewrite <- (app_nil_l (_ ≫= _)), <- foldl_append.
  apply foldl_pointwise. intros out i.
  rewrite <- foldl_append. apply foldl_pointwise. intros out' j.
  unfold cell_square. case_match; [by rewrite app_nil_r|done].
Qed.

(** X19. [draw_board] blits a white square for the cells that hold anything
    but 0, and for no other: a square at pixel [(x, y)] is drawn exactly
    when [x] and [y] are [kTileSize] times the column and the row of such a
    cell. *)
Theorem draw_board_draws_live_cells game x y :
  (x, y) ∈ draw_board game ↔
  ∃ i j, in_grid i j ∧ rd (board game) i j ≠ 0 ∧
         x = j * kTileSize ∧ y = i * kTileSize.
Proof.
  rewrite draw_board_closed. rewrite list_elem_of_bind. split.
  - intros (i & Hrow & Hi). apply list_elem_of_bind in Hrow as (j & Hcell & Hj).
    apply elem_of_seqZ in Hi, Hj. unfold cell_square in Hcell.
    destruct (Z.eqb_spec (rd (board game) i j) 0) as [|Hlive];
      [by apply elem_of_nil in Hcell|].
    apply list_elem_of_singleton in Hcell. injection Hcell as -> ->.
    exists i, j. unfold in_grid.
    rewrite !to_Sint16_small by (unfold kBoardWidth, kBoardHeight, kTileSize in *; lia).
    split_and!; (done || lia).
  - intros (i & j & [Hi Hj] & Hlive & -> & ->).
    exists i. split; [|apply elem_of_seqZ; lia].
    apply list_elem_of_bind. exists j. split; [|apply elem_of_seqZ; lia].
    unfold cell_square. destruct (Z.eqb_spec (rd (board game) i j) 0); [done|].
    rewrite !to_Sint16_small by (unfold kBoardWidth, kBoardHeight, kTileSize in *; lia).
    by apply list_elem_of_singleton.
Qed.

Lemma cell_square_elem game i j q :
  0 ≤ i < kBoardHeight → 0 ≤ j < kBoardWidth →
  q ∈ cell_square game i j → q = (j * kTileSize, i * kTileSize).
Proof.
  intros Hi Hj. unfold cell_square. case_match; [by intros ?%elem_of_nil|].
  intros ->%list_elem_of_singleton.
  by rewrite !to_Sint16_small
    by (unfold kBoardWidth, kBoardHeight, kTileSize in *; lia).
Qed.

(** X20. [draw_board] blits no square twice. *)
Theorem draw_board_no_square_twice game : NoDup (draw_board game).
Proof.
  rewrite draw_board_closed. apply NoDup_bind; [| |apply NoDup_seqZ].
  - intros i1 i2 q Hi1%elem_of_seqZ Hi2%elem_of_seqZ.
    intros (j1 & Hq1 & Hj1%elem_of_seqZ)%list_elem_of_bind.
    intros (j2 & Hq2 & Hj2%elem_of_seqZ)%list_elem_of_bind.
    apply cell_square_elem in Hq1, Hq2; try lia. subst q.
    injection Hq2 as _ H. unfold kTileSize in H. lia.
  - intros i Hi%elem_of_seqZ. apply NoDup_bind; [| |apply NoDup_seqZ].
    + intros j1 j2 q Hj1%elem_of_seqZ Hj2%elem_of_seqZ Hq1 Hq2.
      apply cell_square_elem in Hq1, Hq2; try lia. subst q.
      injection Hq2 as H. unfold kTileSize in H. lia.
    + intros j _. unfold cell_square. case_match; [constructor|].
      apply NoDup_singleton.
Qed.

(** X21. [initialize_game] leaves an empty, paused game: whatever the
    allocated boards held, both are all dead afterwards, [playing], [quit]
    and [useOpenGL] are 0, Start and Reset are active and Stop is not, and
    the functions chosen by [main] are kept. *)
Theorem initialize_game_state game start stop reset board0 temp0 :
  wf_grid board0 → wf_grid temp0 →
  let g := initialize_game game start stop reset board0 temp0 in
  board (container g) = blank ∧ temp (container g) = blank ∧
  playing (container g) = No ∧ quit (container g) = No ∧
  useOpenGL (container g) = No ∧
  computeBoardFunc (container g) = computeBoardFunc game ∧
  drawBoardFunc (container g) = drawBoardFunc game ∧
  active (startBtn g) = 1 ∧ active (stopBtn g) = 0 ∧ active (resetBtn g) = 1.
Proof.
  intros Hb Ht g. subst g. unfold initialize_game. cbn [container ui startBtn stopBtn resetBtn].
  rewrite board_reset_closed by by destruct game.
  by destruct game.
Qed.

Lemma initialize_game_state_witness :
  let g := initialize_game stack_garbage
             (mkButton [] (Rect.mk 0 0 0 0) 9) (mkButton [] (Rect.mk 0 0 0 0) 9)
             (mkButton [] (Rect.mk 0 0 0 0) 9)
             (grid_of (λ i j, 5 * i - j)) (grid_of (λ i j, i * j)) in
  board (container g) = blank ∧ playing (container g) = No.
Proof.
  intros g.
  pose proof (initialize_game_state stack_garbage
    (mkButton [] (Rect.mk 0 0 0 0) 9) (mkButton [] (Rect.mk 0 0 0 0) 9)
    (mkButton [] (Rect.mk 0 0 0 0) 9)
    (grid_of (λ i j, 5 * i - j)) (grid_of (λ i j, i * j))
    (wf_grid_of _) (wf_grid_of _)) as (Hb & _ & Hp & _).
  split; [exact Hb|exact Hp].
Defined.

(** X22. Start and Stop take effect within the turn: the turn in which a left
    click hits Start while paused already advances the board by one
    generation, and the turn in which any mouse button is pressed on Stop
    while running leaves the boards as they are. *)
Theorem start_stop_within_turn tk st is_left x y :
  let c := container (ui st) in
  tick_events tk = [MouseButtonDown is_left x y] →
  wf_grid (board c) → wf_grid (temp c) →
  schedule kBoardHeight (tick_rows tk) →
  (∀ i, 0 ≤ i < kBoardHeight → schedule kBoardWidth (tick_cols tk i)) →
  (playing c = 0 → is_left = true →
   button_is_clicked (startBtn (ui st)) x y = 1 →
   board (container (ui (frame tk st))) = (board_compute (board c) (temp c)).1 ∧
   playing (container (ui (frame tk st))) = Yes) ∧
  (playing c = Yes → button_is_clicked (stopBtn (ui st)) x y = 1 →
   board (container (ui (frame tk st))) = board c ∧
   temp (container (ui (frame tk st))) = temp c ∧
   playing (container (ui (frame tk st))) = 0).
Proof.
  intros c Hevts Hb Ht Hrows Hcols. subst c. unfold frame. rewrite Hevts.
  cbn [foldl]. unfold handle_event.
  destruct st as [[c s p r] m];
    cbn [ui container startBtn stopBtn resetBtn mouseButtonDown] in *.
  split.
  - intros Hpaused -> Hclick.
    assert ((playing (set_quit c 0) =? 0) = true) as ->
      by (destruct c; cbn in *; lia).
    rewrite Hclick. cbn [Z.eqb negb ui container].
    assert ((playing (set_playing (set_quit c 0) Yes) =? Yes) = true) as ->
      by by destruct c.
    cbn [with_container ui container].
    rewrite compute_board_closed, board_compute_closed by (done || by destruct c).
    by destruct c.
  - intros Hrun Hclick.
    assert ((playing (set_quit c 0) =? 0) = false) as ->
      by (destruct c; cbn in *; unfold Yes in *; lia).
    rewrite Hclick. cbn [Z.eqb Z.b2z ui container].
    assert ((playing (set_playing (set_quit c 0) 0) =? Yes) = false) as ->
      by by destruct c.
    by destruct c.
Qed.

Lemma start_stop_within_turn_witness :
  let start := mkButton [Rect.mk 0 0 50 30; Rect.mk 0 0 50 30] (Rect.mk 5 5 0 0) 1 in
  let c := mkGame Draw_board Board_compute (board_of (horizontal 3 4)) blank 0 0 0 in
  let tk := mkTick [MouseButtonDown true 10 10]
              (seqZ 0 kBoardHeight) (λ _, seqZ 0 kBoardWidth) in
  board (container (ui (frame tk (mkLoop (mkUi c start start start) 0)))) =
  (board_compute (board_of (horizontal 3 4)) blank).1.
Proof.
  intros start c tk.
  refine (proj1 (proj1 (start_stop_within_turn tk
            (mkLoop (mkUi c start start start) 0) true 10 10
            eq_refl (wf_grid_of _) (wf_grid_of _) _ _) eq_refl eq_refl eq_refl)).
  - apply schedule_seqZ.
  - intros; apply schedule_seqZ.
Defined.

(** X23. The loop ends with the turn whose last polled event is the quit
    event: the turns after it are never run. *)
Theorem loop_ends_on_quit tk rest st evts :
  quit (container (ui st)) = 0 →
  tick_events tk = evts ++ [Quit] →
  run_loop (tk :: rest) st = frame tk st.
Proof.
  intros Hgo Hevts. cbn [run_loop]. rewrite Hgo. cbn [Z.eqb negb].
  assert (quit (container (ui (frame tk st))) = 1) as Hquit.
  { by rewrite frame_quit, Hevts, foldl_snoc, handle_event_quit. }
  destruct rest; cbn [run_loop]; by rewrite Hquit.
Qed.

Lemma loop_ends_on_quit_witness :
  let btn := mkButton [] (Rect.mk 0 0 0 0) 0 in
  let st := mkLoop (mkUi (mkGame Draw_board Board_compute blank blank 0 0 0)
                      btn btn btn) 0 in
  let tk := mkTick [OtherEvent; Quit] [] (λ _, []) in
  run_loop [tk; mkTick [MouseButtonDown true 130 250] [] (λ _, [])] st =
  frame tk st.
Proof.
  intros btn st tk.
  exact (loop_ends_on_quit tk _ st [OtherEvent] eq_refl eq_refl).
Defined.
